(** * techiewriter: the cache gate, the rate/retry layer and the post normaliser

    A shallow embedding of [src/generate_posts.py] and [src/app.py], with
    the properties of the resilient generation path stated over it. *)

From Stdlib Require Import QArith Qminmax Qround Lqa.
From stdpp Require Import gmap strings list.

Set Default Proof Using "Type".

(** ** Python text

    A Python [str] is a sequence of Unicode code points.  The tables below
    are the interpreter's: the white space that [str.strip] and
    [str.split] remove, and the line boundaries of [str.splitlines]. *)

Module PyStr.

Abbreviation char := N (only parsing).
Abbreviation str := (list N) (only parsing).

(** A source literal (ASCII) as a [str]. *)
Definition lit (s : string) : str :=
  map (fun a => N.of_nat (Ascii.nat_of_ascii a)) (String.list_ascii_of_string s).
Arguments lit : simpl never.

Definition LF : char := 10%N.
Definition CR : char := 13%N.
Definition SPACE : char := 32%N.
Definition HASH : char := 35%N.
Definition QUESTION : char := 63%N.

Section tables.
Local Open Scope N_scope.

(** [str.isspace] on one code point. *)
Definition is_space (c : char) : bool :=
  ((9 <=? c) && (c <=? 13)) || ((28 <=? c) && (c <=? 32))
  || (c =? 133) || (c =? 160) || (c =? 5760)
  || ((8192 <=? c) && (c <=? 8202))
  || (c =? 8232) || (c =? 8233) || (c =? 8239) || (c =? 8287) || (c =? 12288).

(** The line boundaries of [str.splitlines]. *)
Definition is_linebreak (c : char) : bool :=
  ((10 <=? c) && (c <=? 13)) || ((28 <=? c) && (c <=? 30))
  || (c =? 133) || (c =? 8232) || (c =? 8233).

End tables.

(** [s.lstrip()], [s.rstrip()], [s.strip()]. *)
Fixpoint lstrip (s : str) : str :=
  match s with
  | [] => []
  | c :: r => if is_space c then lstrip r else s
  end.

Fixpoint rstrip (s : str) : str :=
  match s with
  | [] => []
  | c :: r =>
      match rstrip r with
      | [] => if is_space c then [] else [c]
      | r' => c :: r'
      end
  end.

Definition strip (s : str) : str := rstrip (lstrip s).

(** [s.splitlines()]: a carriage return followed by a line feed is one
    boundary, and a final boundary opens no further line. *)
Fixpoint splitlines (s : str) : list str :=
  match s with
  | [] => []
  | c :: r =>
      if is_linebreak c then
        match r with
        | d :: r' => if (c =? CR)%N && (d =? LF)%N then [] :: splitlines r'
                     else [] :: splitlines r
        | [] => [[]]
        end
      else
        match splitlines r with
        | [] => [[c]]
        | l :: ls => (c :: l) :: ls
        end
  end.

(** [s.split()]: the maximal runs of characters that are not white space. *)
Fixpoint split (s : str) : list str :=
  match s with
  | [] => []
  | c :: r =>
      if is_space c then split r
      else
        match r with
        | [] => [[c]]
        | d :: _ =>
            if is_space d then [c] :: split r
            else
              match split r with
              | w :: ws => (c :: w) :: ws
              | [] => [[c]]
              end
        end
  end.

(** [sep.join(parts)]. *)
Fixpoint join (sep : str) (parts : list str) : str :=
  match parts with
  | [] => []
  | [x] => x
  | x :: rest => x ++ sep ++ join sep rest
  end.

(** [s.startswith(c)] and [c in s] for a one-character [c]. *)
Definition startswith (c : char) (s : str) : bool :=
  match s with
  | d :: _ => (d =? c)%N
  | [] => false
  end.

Definition contains (c : char) (s : str) : bool := existsb (N.eqb c) s.

(** Truth value of a [str]: the empty text is false. *)
Definition truthy (s : str) : bool :=
  match s with [] => false | _ => true end.

(** Vocabulary for the properties: a character that is not white space,
    a text with at least one, a text without line boundary, a text that
    [strip] leaves as it is. *)
Definition ink (c : char) : Prop := is_space c = false.
Definition has_ink (s : str) : Prop := Exists ink s.
Definition blank (s : str) : Prop := Forall (fun c => is_space c = true) s.
Definition one_line (s : str) : Prop :=
  Forall (fun c => is_linebreak c = false) s.
Definition stripped (s : str) : Prop := lstrip s = s /\ rstrip s = s.
(** A line as [deduplicate_text] keeps them. *)
Definition clean (s : str) : Prop := s <> [] /\ stripped s /\ one_line s.

(** Where [splitlines] goes on after the boundary [c]: past the line
    feed of a carriage return and line feed pair. *)
Definition after_boundary (c : char) (r : str) : str :=
  match r with
  | d :: r' => if (c =? CR)%N && (d =? LF)%N then r' else r
  | [] => r
  end.

(** Truth value of a list: the empty list is false. *)
Definition truthy_list {A} (l : list A) : bool :=
  match l with [] => false | _ => true end.

(** [s.startswith(p)] and [needle in hay] for texts. *)
Fixpoint is_prefix (p s : str) : bool :=
  match p, s with
  | [], _ => true
  | c :: p', d :: s' => (c =? d)%N && is_prefix p' s'
  | _ :: _, [] => false
  end.

Fixpoint is_infix (needle hay : str) : bool :=
  match hay with
  | [] => is_prefix needle []
  | _ :: r => is_prefix needle hay || is_infix needle r
  end.

(** [re.sub(r"\s+", " ", s)]: every maximal run of white space becomes
    one space (the space is put out at the last character of the run). *)
Fixpoint collapse_spaces (s : str) : str :=
  match s with
  | [] => []
  | c :: r =>
      if is_space c then
        match r with
        | d :: _ => if is_space d then collapse_spaces r
                    else SPACE :: collapse_spaces r
        | [] => [SPACE]
        end
      else c :: collapse_spaces r
  end.

(** What the interpreter's Unicode case tables give: [str.capitalize],
    [str.lower] and [str.isalnum]. *)
Class CaseTables := {
  capitalize : str -> str;
  lower : str -> str;
  isalnum : char -> bool
}.

(** The tables restricted to ASCII letters and digits, other code points
    left as they are. *)
Definition ascii_upper (c : char) : char :=
  if ((97 <=? c) && (c <=? 122))%N then (c - 32)%N else c.
Definition ascii_lower (c : char) : char :=
  if ((65 <=? c) && (c <=? 90))%N then (c + 32)%N else c.
Definition ascii_isalnum (c : char) : bool :=
  (((48 <=? c) && (c <=? 57)) || ((65 <=? c) && (c <=? 90))
   || ((97 <=? c) && (c <=? 122)))%N.
Definition ascii_capitalize (s : str) : str :=
  match s with
  | [] => []
  | c :: r => ascii_upper c :: map ascii_lower r
  end.

Definition ascii_tables : CaseTables :=
  {| capitalize := ascii_capitalize;
     lower := map ascii_lower;
     isalnum := ascii_isalnum |}.

End PyStr.

Import PyStr.

(** ** Exceptions and effects

    A call either returns or raises; stateful code threads its state
    through [M]. *)

Inductive Exn :=
| ResourceExhausted (msg : str)
| TooManyRequests (msg : str)
| ZeroDivisionError (msg : str)
| ValueError (msg : str)
| AttributeError (msg : str)
| OtherError (msg : str).

(** [str(e)]. *)
Definition exn_str (e : Exn) : str :=
  match e with
  | ResourceExhausted m | TooManyRequests m | ZeroDivisionError m
  | ValueError m | AttributeError m | OtherError m => m
  end.

Inductive Outcome (A : Type) :=
| Returned (a : A)
| Raised (e : Exn).
Arguments Returned {A} a.
Arguments Raised {A} e.

Definition M (S A : Type) : Type := S -> Outcome A * S.

Definition ret {S A} (a : A) : M S A := fun s => (Returned a, s).
Definition raise {S A} (e : Exn) : M S A := fun s => (Raised e, s).
Definition bind {S A B} (c : M S A) (k : A -> M S B) : M S B :=
  fun s =>
    match c s with
    | (Returned a, s') => k a s'
    | (Raised e, s') => (Raised e, s')
    end.
(** [try: c] with the outcome handed to the handler as a value. *)
Definition try {S A} (c : M S A) : M S (Outcome A) :=
  fun s => let '(r, s') := c s in (Returned r, s').
Definition get {S} : M S S := fun s => (Returned s, s).
Definition put {S} (s : S) : M S unit := fun _ => (Returned tt, s).

Notation "x <- c ;; k" := (bind c (fun x => k))
  (at level 100, c at next level, right associativity).
Notation "c ;;; k" := (bind c (fun _ => k))
  (at level 100, right associativity).

Definition Qltb (x y : Q) : bool := negb (Qle_bool y x).

(** ** [generate_posts.py] *)

Module GeneratePosts.

Section normaliser.
Context `{CaseTables}.

(** [deduplicate_text]: [lines] keeps the stripped lines in first-seen
    order, [seen] is the set of those already kept. *)
Definition dedup_step (acc : list str * gset str) (line : str)
  : list str * gset str :=
  let '(lines, seen) := acc in
  let clean := strip line in
  if truthy clean && bool_decide (clean ∉ seen)
  then (lines ++ [clean], seen ∪ {[clean]})
  else (lines, seen).

Definition deduplicate_text (text : str) : str :=
  let '(lines, _) := fold_left dedup_step (splitlines text) ([], ∅) in
  strip (join [LF] lines).

Definition CLOSING_PROMPT : str := lit "What do you think?".

(** [apply_post_processing]. *)
Definition apply_post_processing (post idea : str) : str :=
  if negb (truthy post) then post
  else
    let post :=
      join [LF]
        (List.filter (fun line => negb (startswith HASH (strip line)))
                (splitlines post)) in
    let keywords :=
      firstn 3 (List.filter (fun w => (3 <? length w)%nat) (split idea)) in
    let hashtags :=
      join [SPACE] (map (fun w => HASH :: capitalize w) keywords) in
    let post :=
      if truthy hashtags then post ++ [LF; LF] ++ hashtags else post in
    let post :=
      if negb (contains QUESTION post)
      then post ++ [LF; LF] ++ CLOSING_PROMPT
      else post in
    strip post.

(** The normaliser, as [generate_linkedin_post] applies it at its end:
    the text is deduplicated, then post-processed. *)
Definition normalize (raw idea : str) : str :=
  apply_post_processing (deduplicate_text raw) idea.

(** Vocabulary for the properties: the line of hashtags that
    [apply_post_processing] derives from the idea; the test it applies
    to a stripped line; [x] followed by [y] after an empty line, when
    there is a [y]; the paragraphs that are not empty, an empty line
    between them; the closing line a text gets. *)
Definition hashtag_line (idea : str) : str :=
  join [SPACE]
    (map (fun w => HASH :: capitalize w)
         (firstn 3 (List.filter (fun w => (3 <? length w)%nat) (split idea)))).

Definition nonhash (line : str) : bool := negb (startswith HASH line).

Definition glue (x y : str) : str :=
  if truthy y then x ++ [LF; LF] ++ y else x.

Definition paragraphs (ps : list str) : str :=
  join [LF; LF] (List.filter truthy ps).

Definition closing_for (text : str) : list str :=
  if contains QUESTION text then [] else [CLOSING_PROMPT].

(** The case tables keep white space out of a word that has none. *)
Definition keeps_ink : Prop :=
  forall w, Forall ink w -> Forall ink (capitalize w).

End normaliser.

(** *** The rate limiter *)

Local Open Scope Q_scope.

Record RateLimiter := {
  rate : Q;
  capacity : Q;
  tokens : Q;
  last : Q
}.

(** [RateLimiter(rps, burst)] built when the clock reads [now]. *)
Definition RateLimiter_new (rps burst now : Q) : RateLimiter :=
  {| rate := rps; capacity := burst; tokens := burst; last := now |}.

(** The refill of [acquire]: [elapsed] is the difference of two clock
    readings as they are, and [last] is moved to [now]. *)
Definition refill (now : Q) (l : RateLimiter) : RateLimiter :=
  let elapsed := now - last l in
  {| rate := rate l;
     capacity := capacity l;
     tokens := Qmin (capacity l) (tokens l + elapsed * rate l);
     last := now |}.

Definition set_tokens (t : Q) (l : RateLimiter) : RateLimiter :=
  {| rate := rate l; capacity := capacity l; tokens := t; last := last l |}.

(** What the process does besides computing, in order. *)
Inductive Event :=
| EAcquire
| ESleep (seconds : Q)
| EGenerate (model_name prompt : str) (attempt : nat).

(** The state the module's functions run in: the module-level [limiter],
    the wall clock, how many calls the endpoint and the random generator
    have answered, and the events so far (latest last). *)
Record World := {
  limiter : RateLimiter;
  clock : Q;
  api_calls : nat;
  draws : nat;
  trace : list Event
}.

Definition with_limiter (l : RateLimiter) (w : World) : World :=
  {| limiter := l; clock := clock w; api_calls := api_calls w;
     draws := draws w; trace := trace w |}.

Definition log (e : Event) : M World unit :=
  fun w => (Returned tt,
            {| limiter := limiter w; clock := clock w;
               api_calls := api_calls w; draws := draws w;
               trace := trace w ++ [e] |}).

(** [time.sleep(seconds)]: a negative length is a [ValueError]; otherwise
    the clock has moved on by that much when the call returns. *)
Definition time_sleep (seconds : Q) : M World unit :=
  log (ESleep seconds) ;;;
  if Qltb seconds 0
  then raise (ValueError (lit "sleep length must be non-negative"))
  else fun w => (Returned tt,
                 {| limiter := limiter w; clock := clock w + seconds;
                    api_calls := api_calls w; draws := draws w;
                    trace := trace w |}).

(** [RateLimiter.acquire] on the module's [limiter]; the lock is not
    modelled, the calls are taken one after the other. *)
Definition acquire : M World unit :=
  log EAcquire ;;;
  w <- get ;;
  let l := refill (clock w) (limiter w) in
  put (with_limiter l w) ;;;
  if Qltb (tokens l) 1 then
    (if Qeq_bool (rate l) 0
     then raise (ZeroDivisionError (lit "float division by zero"))
     else time_sleep ((1 - tokens l) / rate l)) ;;;
    (fun w' => (Returned tt, with_limiter (set_tokens 0 (limiter w')) w'))
  else
    (fun w' => (Returned tt,
                with_limiter (set_tokens (tokens l - 1) (limiter w')) w')).

(** *** The retrying caller *)

(** The hosted model and the random generator answer from outside: the
    [n]-th call of [generate_content] and the [n]-th draw of
    [random.random]. *)
Class Remote (Response : Type) := {
  generate_content : nat -> str -> str -> Outcome Response;
  random_random : nat -> Q
}.

Section caller.
Context {Response : Type} `{Remote Response}.

Definition call_generate_content (model_name prompt : str) (attempt : nat)
  : M World Response :=
  log (EGenerate model_name prompt attempt) ;;;
  fun w => (generate_content (api_calls w) model_name prompt,
            {| limiter := limiter w; clock := clock w;
               api_calls := S (api_calls w); draws := draws w;
               trace := trace w |}).

Definition call_random : M World Q :=
  fun w => (Returned (random_random (draws w)),
            {| limiter := limiter w; clock := clock w;
               api_calls := api_calls w; draws := S (draws w);
               trace := trace w |}).

(** The exceptions of the first [except] clause. *)
Definition is_overload (e : Exn) : bool :=
  match e with
  | ResourceExhausted _ | TooManyRequests _ => true
  | _ => false
  end.

(** The [for attempt in range(max_retries)] loop, with [remaining]
    iterations to go. *)
Fixpoint retry_loop (model_name prompt : str) (remaining attempt : nat)
  : M World (option Response) :=
  match remaining with
  | O%nat => ret None
  | S remaining' =>
      r <- try (call_generate_content model_name prompt attempt) ;;
      match r with
      | Returned response => ret (Some response)
      | Raised e =>
          if is_overload e then
            jitter <- call_random ;;
            time_sleep (inject_Z (2 ^ Z.of_nat attempt) + jitter) ;;;
            retry_loop model_name prompt remaining' (S attempt)
          else ret None
      end
  end.

Definition _generate_with_retries (model_name prompt : str)
    (max_retries : nat) : M World (option Response) :=
  acquire ;;;
  retry_loop model_name prompt max_retries 0%nat.

Definition DEFAULT_MAX_RETRIES : nat := 4%nat.

(** Reading a trace: how often the limiter was acquired, how many
    generation attempts were made. *)
Definition is_acquire (e : Event) : bool :=
  match e with EAcquire => true | _ => false end.
Definition is_attempt (e : Event) : bool :=
  match e with EGenerate _ _ _ => true | _ => false end.
Definition acquisitions (t : list Event) : nat :=
  length (List.filter is_acquire t).
Definition attempts (t : list Event) : nat :=
  length (List.filter is_attempt t).

(** The events of [n] attempts that all end in a backoff, the first one
    numbered [attempt] and taking the [draw]-th random number. *)
Fixpoint backoff_events (model_name prompt : str) (n attempt draw : nat)
  : list Event :=
  match n with
  | O%nat => []
  | S n' =>
      EGenerate model_name prompt attempt
      :: ESleep (inject_Z (2 ^ Z.of_nat attempt) + random_random draw)
      :: backoff_events model_name prompt n' (S attempt) (S draw)
  end.

(** The endpoint answers its [n]-th call with a transient overload. *)
Definition overloaded_at (n : nat) (model_name prompt : str) : Prop :=
  exists e, generate_content n model_name prompt = Raised e
            /\ is_overload e = true.

End caller.

(** *** The generation pipeline *)

Definition PRIMARY_MODEL : str := lit "models/gemini-2.0-flash-exp".
Definition FALLBACK_MODEL : str := lit "models/gemini-1.5-pro".

(** The reply of the endpoint as far as [safe_response_to_text] looks
    into it; [None] is an attribute the object does not have. *)
Record Part := { part_text : option str }.
Record Content := { content_parts : option (list Part) }.
Record Candidate := { candidate_content : option Content }.
Record Reply := { candidates : option (list Candidate) }.

(** The [for c in response.candidates] loop. *)
Fixpoint first_candidate_text (cs : list Candidate) : str :=
  match cs with
  | [] => []
  | c :: rest =>
      match candidate_content c with
      | Some (Build_Content (Some ps)) =>
          match omap part_text ps with
          | [] => first_candidate_text rest
          | parts => strip (join [SPACE] parts)
          end
      | _ => first_candidate_text rest
      end
  end.

Definition safe_response_to_text (response : option Reply) : str :=
  match response with
  | Some (Build_Reply (Some cs)) => first_candidate_text cs
  | _ => []
  end.

(** [x or ''] for an optional text. *)
Definition or_empty (x : option str) : str :=
  match x with Some s => s | None => [] end.

Definition build_enhanced_prompt (user_idea db_context web_context : str)
    (founder company : option str) : str :=
  let base_prompt :=
    lit "You are an expert LinkedIn content creator.

Write a professional, natural LinkedIn post for the following topic:

**Topic:** " ++ user_idea ++ lit "

Guidelines:
- Start with a strong hook.
- Add storytelling or founder journey if available.
- Keep it human-like and engaging.
- Avoid robotic tone and repetition.
- End with a question or reflection.
- Use only relevant hashtags (based on topic or industry).
- Avoid adding names, random people, or irrelevant hashtags.

Database Context: " ++ db_context ++ lit "
Web Context: " ++ web_context ++ [LF] in
  let base_prompt :=
    if truthy (or_empty founder)
    then base_prompt ++ lit "Founder: " ++ or_empty founder ++ [LF]
    else base_prompt in
  if truthy (or_empty company)
  then base_prompt ++ lit "Company: " ++ or_empty company ++ [LF]
  else base_prompt.

Section pipeline.
Context `{CaseTables} `{Remote Reply}.
(** The database and the web search answer from outside; both calls
    catch what is raised and give the text "None" instead. *)
Context (fetch_db_context : M World str)
        (fetch_web_context : str -> M World str).

Definition generate_linkedin_post (idea : str) (founder company : option str)
  : M World str :=
  if negb (truthy (strip idea)) then ret (lit "Error: Empty idea provided.")
  else
    db_context <- fetch_db_context ;;
    let query := strip (or_empty founder ++ [SPACE] ++ or_empty company) in
    web_context <- fetch_web_context (if truthy query then query else idea) ;;
    let prompt :=
      build_enhanced_prompt idea db_context web_context founder company in
    response <- _generate_with_retries PRIMARY_MODEL prompt
                  DEFAULT_MAX_RETRIES ;;
    let post := safe_response_to_text response in
    post <- (if negb (truthy post) then
               response <- _generate_with_retries FALLBACK_MODEL prompt
                             DEFAULT_MAX_RETRIES ;;
               ret (safe_response_to_text response)
             else ret post) ;;
    let post :=
      if negb (truthy post)
      then lit "Here's a quick thought on " ++ idea
           ++ lit ": every journey begins with a spark of vision."
      else post in
    ret (normalize post idea).

End pipeline.

(** *** Module initialisation *)

(** Loading a module either leaves it loaded or ends the process. *)
Inductive Startup (A : Type) :=
| Up (a : A)
| Terminated (status : nat).
Arguments Up {A} a.
Arguments Terminated {A} status.

Definition and_then {A B} (s : Startup A) (k : A -> Startup B) : Startup B :=
  match s with
  | Up a => k a
  | Terminated n => Terminated n
  end.

(** An import that fails with an exception nobody catches ends the
    process with status 1. *)
Definition import_libraries (ok : bool) : Startup unit :=
  if ok then Up tt else Terminated 1%nat.

Definition os_getenv (environ : gmap str str) (name : str) : option str :=
  environ !! name.

(** What the module holds once loaded. *)
Record Loaded := {
  GEMINI_API_KEY : str;
  SERP_API_KEY : option str;
  initial_limiter : RateLimiter
}.

(** The module body down to [limiter = RateLimiter(1.0, 3)].
    [libraries_ok] says whether the imports at the top succeed,
    [load_dotenv] is the library call that completes the environment from
    the [.env] file.  The trained models, loaded in between, are taken to
    load or to be missing (the loader catches [FileNotFoundError]). *)
Definition module_init (libraries_ok : bool)
    (load_dotenv : gmap str str -> gmap str str)
    (environ : gmap str str) (now : Q) : Startup Loaded :=
  and_then (import_libraries libraries_ok) (fun _ =>
    let environ := load_dotenv environ in
    let GEMINI_API_KEY := os_getenv environ (lit "GEMINI_API_KEY") in
    let SERP_API_KEY := os_getenv environ (lit "SERPAPI_API_KEY") in
    match GEMINI_API_KEY with
    | Some key =>
        if negb (truthy key) then Terminated 1%nat
        else Up {| GEMINI_API_KEY := key; SERP_API_KEY := SERP_API_KEY;
                   initial_limiter := RateLimiter_new 1 3 now |}
    | None => Terminated 1%nat
    end).

(** [load_dotenv()] as the library does it by default: the entries of
    the [.env] file are added, a variable already set is kept. *)
Definition load_dotenv_from (dotenv : gmap str str)
    (environ : gmap str str) : gmap str str :=
  environ ∪ dotenv.

(** [python generate_posts.py idea]: the module body runs first, the
    [__main__] block only on a loaded module; [run] is that block and
    gives the exit status. *)
Definition cli (libraries_ok : bool)
    (load_dotenv : gmap str str -> gmap str str)
    (environ : gmap str str) (now : Q) (run : Loaded -> nat) : nat :=
  match module_init libraries_ok load_dotenv environ now with
  | Up m => run m
  | Terminated status => status
  end.

(** *** Reading a run *)

(** [k] calls of [limiter.acquire()], one after the other. *)
Fixpoint acquire_times (k : nat) : M World unit :=
  match k with
  | O => ret tt
  | S k' => acquire ;;; acquire_times k'
  end.

(** The event is no generation attempt, or one on [model_name] with
    [prompt]. *)
Definition attempt_on (model_name prompt : str) (e : Event) : Prop :=
  match e with
  | EGenerate m p _ => m = model_name /\ p = prompt
  | _ => True
  end.

(** [2^a] as a length of time. *)
Definition pow2 (a : nat) : Q := inject_Z (2 ^ Z.of_nat a).

(** *** Sample states and remotes *)

(** The module's limiter, full, last refilled when the clock read 100. *)
Definition full_limiter : RateLimiter := RateLimiter_new 1 3 100.

Definition world_at (now : Q) (l : RateLimiter) : World :=
  {| limiter := l; clock := now; api_calls := 0; draws := 0; trace := [] |}.

(** An endpoint that is always out of quota, and one that fails for
    another reason on its second call; the jitter is a half each time. *)
Definition always_exhausted : Remote unit :=
  {| generate_content := fun _ _ _ =>
       Raised (ResourceExhausted (lit "429 quota exceeded"));
     random_random := fun _ => 1 # 2 |}.

Definition broken_second : Remote unit :=
  {| generate_content := fun n _ _ =>
       match n with
       | O => Raised (TooManyRequests (lit "429 too many requests"))
       | _ => Raised (OtherError (lit "500 internal error"))
       end;
     random_random := fun _ => 1 # 2 |}.

(** A database and a web search that have nothing to say. *)
Definition nothing_found : M World str := ret (lit "None").

(** An endpoint whose reply has no candidates, and one whose reply is
    the text "Ship it." in one part. *)
Definition no_candidates : Remote Reply :=
  {| generate_content := fun _ _ _ =>
       Returned {| candidates := Some [] |};
     random_random := fun _ => 1 # 2 |}.

Definition ship_it : Reply :=
  {| candidates :=
       Some [ {| candidate_content :=
                   Some {| content_parts :=
                             Some [ {| part_text := Some (lit "Ship it.") |} ]
                        |} |} ] |}.

Definition says_ship_it : Remote Reply :=
  {| generate_content := fun _ _ _ => Returned ship_it;
     random_random := fun _ => 1 # 2 |}.

(** The placeholder of [generate_linkedin_post]. *)
Definition placeholder (idea : str) : str :=
  lit "Here's a quick thought on " ++ idea
  ++ lit ": every journey begins with a spark of vision.".

(** An endpoint that is out of quota twice and then answers. *)
Definition answers_third : Remote unit :=
  {| generate_content := fun n _ _ =>
       match n with
       | O | S O => Raised (ResourceExhausted (lit "429 quota exceeded"))
       | _ => Returned tt
       end;
     random_random := fun _ => 1 # 2 |}.

End GeneratePosts.

Import GeneratePosts.

(** ** [app.py] *)

Module App.

Local Open Scope Q_scope.

Definition CACHE_DIR : str := lit "cache".
Definition CACHE_DURATION_HOURS : Q := 24.

(** A file of the cache directory: its text and its modification time. *)
Record File := {
  mtime : Q;
  content : str
}.

(** A JSON value; an object keeps its fields in the order they were
    given. *)
#[local] Unset Elimination Schemes.
Inductive Json :=
| JNull
| JBool (b : bool)
| JNumber (q : Q)
| JString (s : str)
| JObject (fields : list (str * Json)).
#[local] Set Elimination Schemes.

(** What a route returns: the body and the HTTP status. *)
Definition Response : Type := Json * nat.

Definition jsonify (fields : list (str * Json)) : Json := JObject fields.

(** The body of a [/api/generate] request; [data.get(key, default)] has
    already put the default in for a key that is absent. *)
Record Request := {
  profileUrl : str;
  profileName : str;
  criteria : str;
  forceRefresh : bool
}.

(** The state a request runs in: the files of the cache directory, and
    everything else ([ext]): the wall clock, the browser, the database,
    the index files. *)
Record ServerState (Ext : Type) := {
  files : gmap str File;
  ext : Ext
}.
Arguments files {Ext} _.
Arguments ext {Ext} _.

(** The modules [generate] calls into.  They act on [ext] only.
    [train_model.train] and [generate_posts.create_post] are looked up in
    their module when the call is made: [None] is a module without that
    name.  [json_dump] gives the text written and, when serialising
    stops on an exception, that exception. *)
Class Collaborators (Ext Posts Data : Type) := {
  time_time : Ext -> Q;
  scrape_profile_posts : str -> Ext -> Outcome Posts * Ext;
  build_index : Posts -> Ext -> Outcome bool * Ext;
  train : option (Posts -> Ext -> Outcome Data * Ext);
  create_post : option (str -> Data -> Ext -> Outcome str * Ext);
  json_load : str -> Outcome Data;
  json_dump : Data -> str * option Exn
}.

(** The collaborators as [src/] has them: [train_model.py] defines
    [PostTrainer] and [main], [generate_posts.py] defines no
    [create_post]. *)
Definition in_repository {Ext Posts Data} (c : Collaborators Ext Posts Data)
  : Collaborators Ext Posts Data :=
  {| time_time := time_time;
     scrape_profile_posts := scrape_profile_posts;
     build_index := build_index;
     train := None;
     create_post := None;
     json_load := json_load;
     json_dump := json_dump |}.

Section cache.
Context `{CaseTables}.

Definition SLASH : char := 47%N.
Definition UNDERSCORE : char := 95%N.

(** [os.path.join] of two components. *)
Definition os_path_join (a b : str) : str :=
  if startswith SLASH b then b
  else if negb (truthy a) || startswith SLASH (rev a) then a ++ b
  else a ++ [SLASH] ++ b.

Definition get_cache_path (profile_name : str) : str :=
  let safe_filename :=
    rstrip (List.filter
              (fun c => isalnum c || (c =? SPACE)%N || (c =? UNDERSCORE)%N)
              profile_name) in
  os_path_join CACHE_DIR
    (lower (map (fun c => if (c =? SPACE)%N then UNDERSCORE else c)
                safe_filename)
     ++ lit ".json").

End cache.

Section routes.
Context `{CaseTables}.
Context {Ext Posts Data : Type} `{Collaborators Ext Posts Data}.

(** [x is not None]. *)
Definition is_not_None {A} (x : option A) : bool :=
  match x with Some _ => true | None => false end.

Definition get_cache_age_hours (file_path : str) (w : ServerState Ext)
  : option Q :=
  match files w !! file_path with
  | None => None
  | Some f =>
      let age_seconds := time_time (ext w) - mtime f in
      Some (age_seconds / 3600)
  end.

Definition is_cache_valid (file_path : str) (w : ServerState Ext) : bool :=
  let age := get_cache_age_hours file_path w in
  is_not_None age
  && match age with
     | Some age => Qltb age CACHE_DURATION_HOURS
     | None => false
     end.

Definition json_of_age (age : option Q) : Json :=
  match age with
  | Some a => JNumber a
  | None => JNull
  end.

(** [/api/cache-status]. *)
Definition cache_status (profileName : str) (w : ServerState Ext) : Response :=
  let profile_name := strip profileName in
  if negb (truthy profile_name) then
    (jsonify [(lit "success", JBool false);
              (lit "error", JString (lit "Missing profile name"))], 400%nat)
  else
    let cache_file := get_cache_path profile_name in
    let age_hours := get_cache_age_hours cache_file w in
    (jsonify [(lit "success", JBool true);
              (lit "cached", JBool (is_not_None age_hours));
              (lit "cache_age_hours", json_of_age age_hours)], 200%nat).

(** [/api/clear-cache]. *)
Definition clear_cache (profileName : str) (w : ServerState Ext)
  : Response * ServerState Ext :=
  let profile_name := strip profileName in
  let cache_file := get_cache_path profile_name in
  if is_not_None (files w !! cache_file) then
    ((jsonify [(lit "success", JBool true);
               (lit "message", JString (lit "Cache cleared."))], 200%nat),
     {| files := delete cache_file (files w); ext := ext w |})
  else
    ((jsonify [(lit "success", JBool false);
               (lit "error", JString (lit "No cache found."))], 404%nat),
     w).

(** A collaborator's call, on the [ext] part of the state. *)
Definition on_ext {A} (f : Ext -> Outcome A * Ext) : M (ServerState Ext) A :=
  fun w => let '(r, e) := f (ext w) in (r, {| files := files w; ext := e |}).

(** [module.name]: the attribute, or [AttributeError]. *)
Definition getattr {A} (module_name name : string) (attribute : option A)
  : M (ServerState Ext) A :=
  match attribute with
  | Some a => ret a
  | None =>
      raise (AttributeError
               (lit "module '" ++ lit module_name ++ lit "' has no attribute '"
                ++ lit name ++ lit "'"))
  end.

(** [open(path, "r")] then [json.load]. *)
Definition read_cache (cache_file : str) : M (ServerState Ext) Data :=
  fun w =>
    match files w !! cache_file with
    | Some f => (json_load (content f), w)
    | None => (Raised (OtherError (lit "No such file or directory")), w)
    end.

(** [open(path, "w")] then [json.dump]: the file is replaced by what the
    serialiser wrote, whether it finished or not. *)
Definition write_cache (cache_file : str) (trained_data : Data)
  : M (ServerState Ext) unit :=
  fun w =>
    let '(text, failure) := json_dump trained_data in
    let w' := {| files := <[cache_file :=
                              {| mtime := time_time (ext w);
                                 content := text |}]> (files w);
                 ext := ext w |} in
    match failure with
    | None => (Returned tt, w')
    | Some e => (Raised e, w')
    end.

(** Acquisition, index build and training: the first three statements of
    the [else] branch. *)
Definition rebuild (profile_url : str) : M (ServerState Ext) Data :=
  posts <- on_ext (scrape_profile_posts profile_url) ;;
  on_ext (build_index posts) ;;;
  train_fn <- getattr "train_model" "train" train ;;
  on_ext (train_fn posts).

(** The condition of the cache [if]. *)
Definition cache_usable (force_refresh : bool) (cache_file : str)
    (w : ServerState Ext) : bool :=
  negb force_refresh && is_cache_valid cache_file w.

(** The cache block of [generate]: the trained data and [used_cache]. *)
Definition resolve (profile_url cache_file : str) (force_refresh : bool)
  : M (ServerState Ext) (Data * bool) :=
  w <- get ;;
  if cache_usable force_refresh cache_file w then
    trained_data <- read_cache cache_file ;;
    ret (trained_data, true)
  else
    trained_data <- rebuild profile_url ;;
    write_cache cache_file trained_data ;;;
    ret (trained_data, false).

(** [round(x, 2)]: to the nearest hundredth, a tie to the even one. *)
Definition round2 (x : Q) : Q :=
  let scaled := x * 100 in
  let n := Qfloor scaled in
  let r := scaled - inject_Z n in
  let up :=
    if Qltb r (1 # 2) then false
    else if Qltb (1 # 2) r then true
    else Z.odd n in
  inject_Z (if up then n + 1 else n) / 100.

(** The [try] block of [generate]. *)
Definition generate_body (req : Request) (start : Q)
  : M (ServerState Ext) Response :=
  let profile_url := strip (profileUrl req) in
  let profile_name := strip (profileName req) in
  let criteria := strip (criteria req) in
  let force_refresh := forceRefresh req in
  if negb (truthy profile_url && truthy profile_name && truthy criteria) then
    ret (jsonify [(lit "success", JBool false);
                  (lit "error", JString (lit "Missing required fields"))],
         400%nat)
  else
    let cache_file := get_cache_path profile_name in
    resolved <- resolve profile_url cache_file force_refresh ;;
    let '(trained_data, used_cache) := resolved in
    create_post_fn <- getattr "generate_posts" "create_post" create_post ;;
    post_text <- on_ext (create_post_fn criteria trained_data) ;;
    w <- get ;;
    let meta :=
      [(lit "used_cache", JBool used_cache);
       (lit "cache_age_hours",
        json_of_age (get_cache_age_hours cache_file w));
       (lit "generation_time",
        JNumber (round2 (time_time (ext w) - start)))] in
    ret (jsonify [(lit "success", JBool true);
                  (lit "post", JString post_text);
                  (lit "meta", JObject meta)], 200%nat).

(** [/api/generate]: the [try] block, and the [except Exception] clause
    that turns what it raises into a 500 answer. *)
Definition generate (req : Request) (w : ServerState Ext)
  : Response * ServerState Ext :=
  let start := time_time (ext w) in
  match generate_body req start w with
  | (Returned response, w') => (response, w')
  | (Raised e, w') =>
      ((jsonify [(lit "success", JBool false);
                 (lit "error", JString (exn_str e))], 500%nat), w')
  end.

End routes.

(** *** Reading an answer *)

Definition field (name : str) (j : Json) : option Json :=
  match j with
  | JObject fields => snd <$> List.find (fun kv => bool_decide (fst kv = name)) fields
  | _ => None
  end.

(** The names of the fields of the [meta] object of an answer. *)
Definition meta_fields (r : Response) : option (list str) :=
  match field (lit "meta") (fst r) with
  | Some (JObject fields) => Some (map fst fields)
  | _ => None
  end.

(** The three texts of the request are not empty once stripped. *)
Definition complete (req : Request) : bool :=
  truthy (strip (profileUrl req)) && truthy (strip (profileName req))
  && truthy (strip (criteria req)).

Definition failure (message : str) (status : nat) : Response :=
  (jsonify [(lit "success", JBool false);
            (lit "error", JString message)], status).

Definition success_answer (post_text : str) (used_cache : bool)
    (age time : Json) : Response :=
  (jsonify [(lit "success", JBool true);
            (lit "post", JString post_text);
            (lit "meta",
             JObject [(lit "used_cache", JBool used_cache);
                      (lit "cache_age_hours", age);
                      (lit "generation_time", time)])], 200%nat).

(** *** Sample collaborators and sites

    The outside world is a clock; posts are texts and the trained data is
    a text that serialises as itself. *)

Definition working : Collaborators Q (list str) str :=
  {| time_time := fun now => now;
     scrape_profile_posts := fun _ now => (Returned [lit "first post"], now + 30);
     build_index := fun _ now => (Returned true, now + 5);
     train := Some (fun _ now => (Returned (lit "{}"), now + 5));
     create_post := Some (fun _ _ now => (Returned (lit "A post?"), now + 2));
     json_load := fun text => Returned text;
     json_dump := fun data => (data, None) |}.

(** The browser session cannot be started. *)
Definition no_browser : Collaborators Q (list str) str :=
  {| time_time := fun now => now;
     scrape_profile_posts := fun _ now =>
       (Raised (OtherError (lit "session not created")), now + 1);
     build_index := fun _ now => (Returned true, now + 5);
     train := Some (fun _ now => (Returned (lit "{}"), now + 5));
     create_post := Some (fun _ _ now => (Returned (lit "A post?"), now + 2));
     json_load := fun text => Returned text;
     json_dump := fun data => (data, None) |}.

Definition jane : Request :=
  {| profileUrl := lit "https://www.linkedin.com/in/jane-doe/";
     profileName := lit "Jane Doe";
     criteria := lit "remote work";
     forceRefresh := false |}.

(** A site whose only cache file is Jane's, written when the clock read
    0, seen when it reads [now]. *)
Definition site_at (now : Q) : ServerState Q :=
  {| files := {[ lit "cache/jane_doe.json" :=
                   {| mtime := 0; content := lit "{}" |} ]};
     ext := now |}.

(** *** Start-up *)

(** The module body of [app.py]: the libraries, then [s2],
    [build_index], [train_model] and [generate_posts] in that order, then
    the set-up of the application object. *)
Definition app_init (libraries_ok : bool)
    (s2 build_index train_model : Startup unit)
    (generate_posts : Startup Loaded)
    (setup : Startup unit) : Startup Loaded :=
  and_then (import_libraries libraries_ok) (fun _ =>
  and_then s2 (fun _ =>
  and_then build_index (fun _ =>
  and_then train_model (fun _ =>
  and_then generate_posts (fun m =>
  and_then setup (fun _ => Up m)))))).

(** [python main.py]: the server runs on a loaded application only. *)
Inductive Process :=
| Serving (m : Loaded)
| Exited (status : nat).

Definition main (app : Startup Loaded) : Process :=
  match app with
  | Up m => Serving m
  | Terminated status => Exited status
  end.

End App.

Import App.

(** ** [mysql_utils.py] *)

Module MysqlUtils.

(** [re.sub(pattern, "", text, flags=re.IGNORECASE)], the regular
    expression engine of the library. *)
Class Regex := {
  re_remove_ignorecase : str -> str -> str
}.

Definition BULLET : char := 8226%N.

Definition junk_patterns : list str :=
  [lit "Like\s*Comment\s*Repost\s*Send";
   lit "Follow";
   BULLET :: lit " \d+ (yr|mo|w|d) ago";
   lit "\d+\s*comments?";
   lit "\d+\s*reposts?";
   lit "Activate to view larger image";
   lit "Edited " ++ [BULLET];
   lit "anyone on or off LinkedIn"].

Section clean.
Context `{CaseTables} `{Regex}.

(** One turn of the loop over the lines of [clean_post]. *)
Definition keep_line (profile_name : str) (filtered_lines : list str)
    (line : str) : list str :=
  if truthy_list filtered_lines
     && bool_decide (line = List.last filtered_lines [])
  then filtered_lines
  else if truthy profile_name && is_infix (lower profile_name) (lower line)
  then filtered_lines
  else if is_infix (lit "influencer") (lower line)
  then filtered_lines
  else filtered_lines ++ [line].

Definition clean_post (text profile_name : str) : str :=
  if negb (truthy text) then []
  else
    let text :=
      fold_left (fun text pattern => re_remove_ignorecase pattern text)
        junk_patterns text in
    let lines :=
      map strip (List.filter (fun l => truthy (strip l)) (splitlines text)) in
    let filtered_lines := fold_left (keep_line profile_name) lines [] in
    let cleaned := join [SPACE] filtered_lines in
    strip (collapse_spaces cleaned).

End clean.

(** A scraped post, as [scrape_profile_posts] builds them. *)
Record Post := {
  post_content : str;
  post_likes : Z;
  post_comments : Z;
  post_reposts : Z;
  post_url : str;
  post_timestamp : Q
}.

(** What one [INSERT] comes to: the row is in, the unique key refuses it
    ([IntegrityError]), or the statement fails otherwise. *)
Inductive InsertResult :=
| RowInserted
| IntegrityError
| InsertFailed (e : Exn).

(** The database server: the contents stored, and how it takes an
    [INSERT]. *)
Class Database (DB : Type) := {
  select_contents : DB -> list str;
  execute_insert : Post -> DB -> InsertResult * DB
}.

Section insert.
Context {DB : Type} `{Database DB}.

(** The first loop of [insert_posts_into_mysql]: the posts not yet
    stored, and the number of those that are. *)
Definition split_new (existing_posts : gset str) (posts : list Post)
  : list Post * nat :=
  fold_left
    (fun '(new_posts, skipped_count) post =>
       if bool_decide (post_content post ∈ existing_posts)
       then (new_posts, S skipped_count)
       else (new_posts ++ [post], skipped_count))
    posts ([], O).

(** The second loop, with the counters so far. *)
Fixpoint insert_new (new_posts : list Post) (inserted_count skipped_count : nat)
  : M DB (nat * nat) :=
  match new_posts with
  | [] => ret (inserted_count, skipped_count)
  | post :: rest =>
      fun db =>
        match execute_insert post db with
        | (RowInserted, db') =>
            insert_new rest (S inserted_count) skipped_count db'
        | (IntegrityError, db') =>
            insert_new rest inserted_count (S skipped_count) db'
        | (InsertFailed e, db') => (Raised e, db')
        end
  end.

Definition insert_posts_into_mysql (posts : list Post) : M DB (nat * nat) :=
  fun db =>
    let existing_posts : gset str := list_to_set (select_contents db) in
    let '(new_posts, skipped_count) := split_new existing_posts posts in
    insert_new new_posts O skipped_count db.

(** How many of the posts have a content that is stored already. *)
Definition already_stored (db : DB) (posts : list Post) : nat :=
  length (List.filter
            (fun post => bool_decide (post_content post ∈ select_contents db))
            posts).

End insert.

(** *** Sample databases *)

(** A server that keeps the contents in a list and refuses a content it
    has. *)
Definition list_database : Database (list str) :=
  {| select_contents := fun db => db;
     execute_insert := fun post db =>
       if bool_decide (post_content post ∈ db) then (IntegrityError, db)
       else (RowInserted, db ++ [post_content post]) |}.

Definition sample_post (text : str) : Post :=
  {| post_content := text; post_likes := 0; post_comments := 0;
     post_reposts := 0; post_url := lit "https://www.linkedin.com/in/jane-doe/";
     post_timestamp := 0 |}.

(** An engine that removes nothing. *)
Definition no_junk : Regex := {| re_remove_ignorecase := fun _ text => text |}.

End MysqlUtils.

Import MysqlUtils.

(** * Properties *)

(** ** Comparisons on [Q] *)

Lemma Qltb_lt (x y : Q) : Qltb x y = true <-> (x < y)%Q.
Proof.
  unfold Qltb. rewrite negb_true_iff.
  split.
  - intros Hb. apply Qnot_le_lt. intros Hle.
    apply Qle_bool_iff in Hle. congruence.
  - intros Hlt. destruct (Qle_bool y x) eqn:E; [|reflexivity].
    apply Qle_bool_iff in E. exfalso. apply (Qlt_not_le _ _ Hlt E).
Qed.

Lemma Qltb_ge (x y : Q) : Qltb x y = false <-> (y <= x)%Q.
Proof.
  unfold Qltb. rewrite negb_false_iff. apply Qle_bool_iff.
Qed.

(** ** The rate limiter *)

Section limiter_facts.
Local Open Scope Q_scope.

Lemma refill_tokens_le_capacity (now : Q) (l : RateLimiter) :
  tokens (refill now l) <= capacity l.
Proof. simpl. apply Q.le_min_l. Qed.

(** With the clock not gone back and a rate that is not negative, the
    refill gives no fewer tokens than there were. *)
Lemma refill_monotone (now : Q) (l : RateLimiter) :
  tokens l <= capacity l -> 0 <= rate l -> last l <= now ->
  tokens l <= tokens (refill now l).
Proof.
  intros Hcap Hrate Hclock. simpl.
  apply Q.min_glb; [exact Hcap|].
  rewrite <- (Qplus_0_r (tokens l)) at 1.
  apply Qplus_le_r. apply Qmult_le_0_compat; [|exact Hrate].
  unfold Qminus. rewrite <- (Qplus_opp_r (last l)).
  apply Qplus_le_l. exact Hclock.
Qed.

(** [acquire], branch by branch. *)
Lemma acquire_eval (w : World) :
  let l := refill (clock w) (limiter w) in
  let d := (1 - tokens l) / rate l in
  let mk l' c t :=
    {| limiter := l'; clock := c; api_calls := api_calls w;
       draws := draws w; trace := t |} in
  acquire w =
    if Qltb (tokens l) 1 then
      if Qeq_bool (rate l) 0 then
        (Raised (ZeroDivisionError (lit "float division by zero")),
         mk l (clock w) (trace w ++ [EAcquire]))
      else if Qltb d 0 then
        (Raised (ValueError (lit "sleep length must be non-negative")),
         mk l (clock w) ((trace w ++ [EAcquire]) ++ [ESleep d]))
      else
        (Returned tt,
         mk (set_tokens 0 l) (clock w + d)
            ((trace w ++ [EAcquire]) ++ [ESleep d]))
    else
      (Returned tt,
       mk (set_tokens (tokens l - 1) l) (clock w) (trace w ++ [EAcquire])).
Proof.
  intros l d mk.
  unfold acquire, bind, log, get, put, time_sleep, raise. cbn -[refill].
  fold l. fold d.
  destruct (Qltb (tokens l) 1); [|reflexivity].
  destruct (Qeq_bool (rate l) 0); [reflexivity|].
  unfold bind. cbn -[refill].
  destruct (Qltb d 0); reflexivity.
Qed.

(** A limiter with a positive rate lets the caller through. *)
Lemma acquire_returns (w : World) :
  0 < rate (limiter w) ->
  exists w0, acquire w = (Returned tt, w0)
    /\ api_calls w0 = api_calls w /\ draws w0 = draws w.
Proof.
  intros Hrate. rewrite acquire_eval. cbv zeta.
  set (l := refill (clock w) (limiter w)).
  assert (Hr : rate l = rate (limiter w)) by reflexivity.
  destruct (Qltb (tokens l) 1) eqn:Hlt.
  - destruct (Qeq_bool (rate l) 0) eqn:Hz.
    { apply Qeq_bool_iff in Hz. rewrite Hr in Hz. rewrite Hz in Hrate.
      exfalso. exact (Qlt_irrefl _ Hrate). }
    destruct (Qltb ((1 - tokens l) / rate l) 0) eqn:Hneg.
    { exfalso. apply Qltb_lt in Hneg. apply Qltb_lt in Hlt.
      apply (Qlt_not_le _ _ Hneg).
      apply Qle_shift_div_l; [rewrite Hr; exact Hrate|].
      rewrite Qmult_0_l. apply Qlt_le_weak.
      unfold Qminus. rewrite <- (Qplus_opp_r (tokens l)).
      apply Qplus_lt_l. exact Hlt. }
    eexists. split; [reflexivity|]. by cbn.
  - eexists. split; [reflexivity|]. by cbn.
Qed.

(** The limiter that [acquire] leaves, whatever the branch taken. *)
Lemma acquire_limiter (w : World) :
  let l := refill (clock w) (limiter w) in
  limiter (snd (acquire w)) = l
  \/ limiter (snd (acquire w)) = set_tokens 0 l
  \/ (1 <= tokens l
      /\ limiter (snd (acquire w)) = set_tokens (tokens l - 1) l).
Proof.
  intros l. rewrite acquire_eval. cbv zeta. fold l.
  destruct (Qltb (tokens l) 1) eqn:Hlt.
  - destruct (Qeq_bool (rate l) 0); [left; reflexivity|].
    destruct (Qltb ((1 - tokens l) / rate l) 0);
      [left | right; left]; reflexivity.
  - right; right. split; [|reflexivity].
    apply Qltb_ge, Hlt.
Qed.

End limiter_facts.

(** C8, counterexample: the limiter is full (3 of 3 tokens) and was last
    refilled when the clock read 100; an [acquire] with the clock at 98
    computes an elapsed time of -2 and refills down to 1 token, so the
    call leaves 0 tokens, where a clamped elapsed time would leave 2. *)
Lemma refill_decreases_when_clock_goes_back :
  (tokens full_limiter <= capacity full_limiter)%Q
  /\ (tokens (refill 98 full_limiter) == 1)%Q
  /\ (tokens (refill 98 full_limiter) < tokens full_limiter)%Q
  /\ (tokens (limiter (snd (acquire (world_at 98 full_limiter)))) == 0)%Q.
Proof.
  repeat split; vm_compute; congruence.
Qed.

(** C8, amended: for a capacity that is not negative, [acquire] leaves
    the capacity as it was and a token count that does not exceed it;
    the elapsed time is taken as the clock gives it, and the refill does
    not lower the token count when the clock has not gone back (and the
    rate is not negative). *)
Theorem acquire_keeps_tokens_within_capacity (w : World) :
  (0 <= capacity (limiter w))%Q ->
  capacity (limiter (snd (acquire w))) = capacity (limiter w)
  /\ (tokens (limiter (snd (acquire w)))
      <= capacity (limiter (snd (acquire w))))%Q
  /\ ((tokens (limiter w) <= capacity (limiter w))%Q ->
      (0 <= rate (limiter w))%Q -> (last (limiter w) <= clock w)%Q ->
      (tokens (limiter w) <= tokens (refill (clock w) (limiter w)))%Q).
Proof.
  intros Hcap.
  pose proof (refill_tokens_le_capacity (clock w) (limiter w)) as Hre.
  destruct (acquire_limiter w) as [-> | [-> | [Hone ->]]].
  - split; [reflexivity|]. split; [exact Hre|]. apply refill_monotone.
  - split; [reflexivity|]. split; [exact Hcap|]. apply refill_monotone.
  - split; [reflexivity|]. split; [|apply refill_monotone].
    cbn -[refill Qminus]. apply Qle_trans with (2 := Hre).
    rewrite <- (Qplus_0_r (tokens (refill (clock w) (limiter w)))) at 2.
    unfold Qminus. apply Qplus_le_r. discriminate.
Qed.

(** The full limiter, asked when the clock reads 98. *)
Lemma acquire_keeps_tokens_within_capacity_witness :
  (tokens (limiter (snd (acquire (world_at 98 full_limiter))))
   <= capacity (limiter (snd (acquire (world_at 98 full_limiter)))))%Q.
Proof.
  apply (acquire_keeps_tokens_within_capacity (world_at 98 full_limiter)).
  vm_compute. discriminate.
Defined.

(** ** The retrying caller *)

Section caller_facts.
Context {Response : Type} `{Remote Response}.
Local Open Scope Q_scope.

Lemma backoff_length_nonneg (attempt : nat) (j : Q) :
  0 <= j -> Qltb (inject_Z (2 ^ Z.of_nat attempt) + j) 0 = false.
Proof.
  intros Hj. apply Qltb_ge.
  rewrite <- (Qplus_0_r 0). apply Qplus_le_compat; [|exact Hj].
  change 0 with (inject_Z 0). rewrite <- Zle_Qle.
  apply Z.pow_nonneg. lia.
Qed.

Lemma acquisitions_app (t u : list Event) :
  acquisitions (t ++ u) = (acquisitions t + acquisitions u)%nat.
Proof. unfold acquisitions. by rewrite List.filter_app, length_app. Qed.

Lemma attempts_app (t u : list Event) :
  attempts (t ++ u) = (attempts t + attempts u)%nat.
Proof. unfold attempts. by rewrite List.filter_app, length_app. Qed.

Lemma attempts_backoff_events (model_name prompt : str) (n a d : nat) :
  attempts (backoff_events model_name prompt n a d) = n
  /\ acquisitions (backoff_events model_name prompt n a d) = 0%nat.
Proof.
  revert a d. induction n as [|n IH]; intros a d; [done|].
  destruct (IH (S a) (S d)) as [IH1 IH2].
  unfold attempts, acquisitions in *. cbn. by rewrite IH1, IH2.
Qed.

(** One turn of the loop on a transient overload. *)
Lemma retry_loop_overload_step (model_name prompt : str) (n a : nat)
    (w : World) :
  overloaded_at (api_calls w) model_name prompt ->
  0 <= random_random (draws w) ->
  retry_loop model_name prompt (S n) a w =
  retry_loop model_name prompt n (S a)
    {| limiter := limiter w;
       clock := clock w
                + (inject_Z (2 ^ Z.of_nat a) + random_random (draws w));
       api_calls := S (api_calls w);
       draws := S (draws w);
       trace := (trace w ++ [EGenerate model_name prompt a])
                ++ [ESleep (inject_Z (2 ^ Z.of_nat a)
                            + random_random (draws w))] |}.
Proof.
  intros (e & He & Hov) Hj.
  cbn [retry_loop].
  unfold bind at 1. unfold try, call_generate_content, bind, log. cbn.
  rewrite He, Hov.
  unfold bind, call_random, time_sleep, log, bind. cbn.
  rewrite (backoff_length_nonneg a _ Hj). reflexivity.
Qed.

(** The loop when every attempt ends in a transient overload. *)
Lemma retry_loop_overloaded (model_name prompt : str) (n : nat) :
  forall (a : nat) (w : World),
    (forall i, (i < n)%nat ->
               overloaded_at (api_calls w + i) model_name prompt) ->
    (forall k, 0 <= random_random k) ->
    exists w',
      retry_loop model_name prompt n a w = (Returned None, w')
      /\ trace w' = trace w
                    ++ backoff_events model_name prompt n a (draws w)
      /\ limiter w' = limiter w.
Proof.
  induction n as [|n IH]; intros a w Hov Hj.
  - exists w. cbn. by rewrite app_nil_r.
  - rewrite retry_loop_overload_step;
      [|specialize (Hov 0%nat); rewrite Nat.add_0_r in Hov; apply Hov; lia
       |apply Hj].
    match goal with |- context [retry_loop _ _ n (S a) ?w1] =>
      destruct (IH (S a) w1) as (w' & Hrun & Htr & Hlim); [|exact Hj|]
    end.
    { intros i Hi. cbn. specialize (Hov (S i)).
      rewrite Nat.add_succ_r in Hov. apply Hov. lia. }
    exists w'. split; [exact Hrun|]. cbn in Htr, Hlim.
    split; [|exact Hlim]. rewrite Htr. cbn.
    by rewrite <- !app_assoc.
Qed.

(** The loop when the [k]-th attempt fails for another reason, the ones
    before it on overloads. *)
Lemma retry_loop_aborts (model_name prompt : str) (k : nat) :
  forall (n a : nat) (w : World) (e : Exn),
    (k < n)%nat ->
    (forall i, (i < k)%nat ->
               overloaded_at (api_calls w + i) model_name prompt) ->
    (forall j, 0 <= random_random j) ->
    generate_content (api_calls w + k) model_name prompt = Raised e ->
    is_overload e = false ->
    exists w',
      retry_loop model_name prompt n a w = (Returned None, w')
      /\ trace w' = trace w
                    ++ backoff_events model_name prompt k a (draws w)
                    ++ [EGenerate model_name prompt (a + k)].
Proof.
  induction k as [|k IH]; intros n a w e Hk Hov Hj He Hne.
  - destruct n as [|n]; [lia|].
    rewrite Nat.add_0_r in He.
    eexists. split.
    + cbn [retry_loop]. unfold bind at 1.
      unfold try, call_generate_content, bind, log. cbn.
      rewrite He, Hne. reflexivity.
    + cbn. by rewrite Nat.add_0_r.
  - destruct n as [|n]; [lia|].
    rewrite retry_loop_overload_step;
      [|specialize (Hov 0%nat); rewrite Nat.add_0_r in Hov; apply Hov; lia
       |apply Hj].
    match goal with |- context [retry_loop _ _ n (S a) ?w1] =>
      destruct (IH n (S a) w1 e) as (w' & Hrun & Htr);
        [| |exact Hj| |exact Hne|]
    end.
    { lia. }
    { intros i Hi. cbn. specialize (Hov (S i)).
      rewrite Nat.add_succ_r in Hov. apply Hov. lia. }
    { cbn. rewrite Nat.add_succ_r in He. exact He. }
    exists w'. split; [exact Hrun|]. rewrite Htr. cbn.
    rewrite <- !app_assoc. cbn. by rewrite Nat.add_succ_r.
Qed.

(** Whatever the endpoint answers, the loop adds no acquisition and at
    most [n] attempts to the trace. *)
Lemma retry_loop_trace (model_name prompt : str) (n : nat) :
  forall (a : nat) (w : World),
    exists evs,
      trace (snd (retry_loop model_name prompt n a w)) = trace w ++ evs
      /\ acquisitions evs = 0%nat /\ (attempts evs <= n)%nat.
Proof.
  induction n as [|n IH]; intros a w.
  - exists []. cbn. by rewrite app_nil_r.
  - cbn [retry_loop]. unfold bind at 1.
    unfold try, call_generate_content, bind, log. cbn.
    destruct (generate_content (api_calls w) model_name prompt)
      as [response|e].
    + exists [EGenerate model_name prompt a]. cbn. repeat split. lia.
    + destruct (is_overload e).
      * unfold bind, call_random, time_sleep, log, bind, raise. cbn.
        destruct (Qltb _ 0).
        -- eexists. cbn. rewrite <- app_assoc. split; [reflexivity|].
           cbn. split; [reflexivity|lia].
        -- match goal with |- context [retry_loop _ _ n (S a) ?w1] =>
             destruct (IH (S a) w1) as (evs & Htr & Hacq & Hatt)
           end.
           rewrite Htr. cbn. rewrite <- !app_assoc. cbn.
           eexists. split; [reflexivity|].
           unfold acquisitions, attempts in *. cbn.
           split; [exact Hacq|lia].
      * exists [EGenerate model_name prompt a]. cbn. repeat split. lia.
Qed.

(** C3: with a limiter that lets the caller through (positive rate) and
    a jitter in [0,1), a tier that answers every attempt with a
    transient overload gets exactly [max_retries] attempts, each followed
    by a sleep of [2^attempt] plus the jitter, and the caller then
    returns [None]; a tier whose [k]-th attempt raises anything else gets
    no attempt after that one, and the caller returns [None] as well. *)
Theorem retries_are_bounded (model_name prompt : str) (max_retries : nat)
    (w : World) :
  0 < rate (limiter w) ->
  (forall j, 0 <= random_random j /\ random_random j < 1) ->
  exists w0,
    acquire w = (Returned tt, w0)
    /\ ((forall i, (i < max_retries)%nat ->
                   overloaded_at (api_calls w + i) model_name prompt) ->
        exists w1,
          _generate_with_retries model_name prompt max_retries w
          = (Returned None, w1)
          /\ trace w1
             = trace w0
               ++ backoff_events model_name prompt max_retries 0 (draws w)
          /\ attempts
               (backoff_events model_name prompt max_retries 0 (draws w))
             = max_retries)
    /\ (forall a j,
          inject_Z (2 ^ Z.of_nat a)
          <= inject_Z (2 ^ Z.of_nat a) + random_random j
          /\ inject_Z (2 ^ Z.of_nat a) + random_random j
             < inject_Z (2 ^ Z.of_nat a) + 1)
    /\ (forall k e,
          (k < max_retries)%nat ->
          (forall i, (i < k)%nat ->
                     overloaded_at (api_calls w + i) model_name prompt) ->
          generate_content (api_calls w + k) model_name prompt = Raised e ->
          is_overload e = false ->
          exists w1,
            _generate_with_retries model_name prompt max_retries w
            = (Returned None, w1)
            /\ trace w1
               = trace w0
                 ++ backoff_events model_name prompt k 0 (draws w)
                 ++ [EGenerate model_name prompt k]).
Proof.
  intros Hrate Hjit.
  assert (Hj : forall j, 0 <= random_random j) by (intros j; apply Hjit).
  destruct (acquire_returns w Hrate) as (w0 & Hacq & Hcalls & Hdraws).
  exists w0. split; [exact Hacq|].
  split; [|split].
  - intros Hov.
    destruct (retry_loop_overloaded model_name prompt max_retries 0%nat w0)
      as (w1 & Hrun & Htr & _); [|exact Hj|].
    { intros i Hi. rewrite Hcalls. by apply Hov. }
    exists w1. unfold _generate_with_retries, bind. rewrite Hacq, Hrun.
    split; [reflexivity|]. rewrite Htr, Hdraws.
    split; [reflexivity|]. apply attempts_backoff_events.
  - intros a j. destruct (Hjit j) as [H0 H1]. split.
    + rewrite <- (Qplus_0_r (inject_Z (2 ^ Z.of_nat a))) at 1.
      by apply Qplus_le_r.
    + by apply Qplus_lt_r.
  - intros k e Hk Hov He Hne.
    destruct (retry_loop_aborts model_name prompt k max_retries 0%nat w0 e)
      as (w1 & Hrun & Htr); [exact Hk| |exact Hj| |exact Hne|].
    { intros i Hi. rewrite Hcalls. by apply Hov. }
    { by rewrite Hcalls. }
    exists w1. unfold _generate_with_retries, bind. rewrite Hacq, Hrun.
    split; [reflexivity|]. by rewrite Htr, Hdraws.
Qed.

(** C4, amended: one call of the retrying caller acquires the limiter
    exactly once, before the first attempt, whatever the number of
    attempts; it makes at most [max_retries] of them. *)
Theorem limiter_acquired_once_per_call (model_name prompt : str)
    (max_retries : nat) (w : World) :
  exists evs,
    trace (snd (_generate_with_retries model_name prompt max_retries w))
    = trace w ++ EAcquire :: evs
    /\ acquisitions (EAcquire :: evs) = 1%nat
    /\ (attempts (EAcquire :: evs) <= max_retries)%nat.
Proof.
  unfold _generate_with_retries, bind.
  pose proof (acquire_eval w) as Heval. cbv zeta in Heval.
  set (l := refill (clock w) (limiter w)) in *.
  set (d := (1 - tokens l) / rate l) in *.
  destruct (Qltb (tokens l) 1).
  - destruct (Qeq_bool (rate l) 0).
    { rewrite Heval. exists []. cbn. repeat split. lia. }
    destruct (Qltb d 0).
    { rewrite Heval. exists [ESleep d]. cbn.
      rewrite <- app_assoc. repeat split. lia. }
    rewrite Heval.
    match goal with |- context [retry_loop _ _ _ _ ?w0] =>
      destruct (retry_loop_trace model_name prompt max_retries 0%nat w0)
        as (evs & Htr & Hacq & Hatt)
    end.
    exists (ESleep d :: evs). rewrite Htr. cbn. rewrite <- !app_assoc.
    split; [reflexivity|].
    unfold acquisitions, attempts in *. cbn. split; [by rewrite Hacq|lia].
  - rewrite Heval.
    match goal with |- context [retry_loop _ _ _ _ ?w0] =>
      destruct (retry_loop_trace model_name prompt max_retries 0%nat w0)
        as (evs & Htr & Hacq & Hatt)
    end.
    exists evs. rewrite Htr. cbn. rewrite <- !app_assoc.
    split; [reflexivity|].
    unfold acquisitions, attempts in *. cbn. split; [by rewrite Hacq|lia].
Qed.

End caller_facts.

(** The default call against an endpoint that is always out of quota,
    and against one whose second answer is another error. *)
Lemma retries_are_bounded_witness :
  (exists w1,
     @_generate_with_retries unit always_exhausted
       PRIMARY_MODEL (lit "prompt") DEFAULT_MAX_RETRIES
       (world_at 100 full_limiter)
     = (Returned None, w1)
     /\ attempts (trace w1) = 4%nat)
  /\ (exists w1,
        @_generate_with_retries unit broken_second
          PRIMARY_MODEL (lit "prompt") DEFAULT_MAX_RETRIES
          (world_at 100 full_limiter)
        = (Returned None, w1)
        /\ attempts (trace w1) = 2%nat).
Proof.
  split.
  - destruct (@retries_are_bounded unit always_exhausted
                PRIMARY_MODEL (lit "prompt")
                DEFAULT_MAX_RETRIES (world_at 100 full_limiter))
      as (w0 & Hacq & Hall & _).
    + vm_compute. reflexivity.
    + intros j. cbn. split; vm_compute; congruence.
    + destruct Hall as (w1 & Hrun & Htr & Hatt).
      * intros i _. eexists. split; reflexivity.
      * exists w1. split; [exact Hrun|].
        rewrite Htr. injection Hacq as <-.
        rewrite attempts_app, Hatt. reflexivity.
  - destruct (@retries_are_bounded unit broken_second
                PRIMARY_MODEL (lit "prompt")
                DEFAULT_MAX_RETRIES (world_at 100 full_limiter))
      as (w0 & Hacq & _ & _ & Habort).
    + vm_compute. reflexivity.
    + intros j. cbn. split; vm_compute; congruence.
    + destruct (Habort 1%nat (OtherError (lit "500 internal error")))
        as (w1 & Hrun & Htr).
      * unfold DEFAULT_MAX_RETRIES. lia.
      * intros i Hi. assert (i = 0%nat) as -> by lia.
        eexists. split; reflexivity.
      * reflexivity.
      * reflexivity.
      * exists w1. split; [exact Hrun|].
        rewrite Htr. injection Hacq as <-. reflexivity.
Defined.

(** C4, counterexample: against an endpoint that is always out of quota,
    the default call makes four attempts and acquires the limiter
    once. *)
Lemma four_attempts_one_acquisition :
  attempts
    (trace (snd (@_generate_with_retries unit always_exhausted
                   PRIMARY_MODEL (lit "prompt")
                   DEFAULT_MAX_RETRIES (world_at 100 full_limiter))))
  = 4%nat
  /\ acquisitions
       (trace (snd (@_generate_with_retries unit always_exhausted
                      PRIMARY_MODEL (lit "prompt")
                      DEFAULT_MAX_RETRIES (world_at 100 full_limiter))))
     = 1%nat.
Proof. split; vm_compute; reflexivity. Qed.

(** ** Start-up without the API key *)

(** C10: when [GEMINI_API_KEY] is not set as the module reads it (after
    [load_dotenv()]), loading [generate_posts] ends the process with
    status 1; so does the command line, before its [__main__] block; and
    [app.py], which imports the module before it sets anything up, never
    comes up, so that [main.py] exits instead of serving (with status 1
    when the imports before [generate_posts] succeed). *)
Theorem missing_key_stops_every_entry_point (libraries_ok : bool)
    (load_dotenv : gmap str str -> gmap str str)
    (environ : gmap str str) (now : Q) :
  os_getenv (load_dotenv environ) (lit "GEMINI_API_KEY") = None ->
  module_init libraries_ok load_dotenv environ now = Terminated 1
  /\ (forall run, cli libraries_ok load_dotenv environ now run = 1)
  /\ (forall flask_ok s2 build_index train_model setup,
        exists status,
          app_init flask_ok s2 build_index train_model
            (module_init libraries_ok load_dotenv environ now) setup
          = Terminated status
          /\ main (app_init flask_ok s2 build_index train_model
                     (module_init libraries_ok load_dotenv environ now)
                     setup)
             = Exited status
          /\ (flask_ok = true -> s2 = Up tt -> build_index = Up tt ->
              train_model = Up tt -> status = 1)).
Proof.
  intros Hkey.
  assert (Hinit : module_init libraries_ok load_dotenv environ now
                  = Terminated 1).
  { unfold module_init, and_then, import_libraries.
    destruct libraries_ok; [|reflexivity]. by rewrite Hkey. }
  split; [exact Hinit|]. split.
  - intros run. unfold cli. by rewrite Hinit.
  - intros flask_ok s2 build_index train_model setup. rewrite Hinit.
    unfold app_init, and_then, import_libraries.
    destruct flask_ok; [|by exists 1; repeat split].
    destruct s2 as [[]|n]; [|by exists n; repeat split].
    destruct build_index as [[]|n]; [|by exists n; repeat split].
    destruct train_model as [[]|n]; [|by exists n; repeat split].
    by exists 1.
Qed.

(** An empty environment and no [.env] file. *)
Lemma missing_key_stops_every_entry_point_witness :
  module_init true (load_dotenv_from ∅) ∅ 0 = Terminated 1.
Proof.
  apply (missing_key_stops_every_entry_point true (load_dotenv_from ∅) ∅ 0).
  reflexivity.
Defined.

(** ** The cache gate *)

Section cache_facts.
Context `{CaseTables}.
Context {Ext Posts Data : Type} `{Collaborators Ext Posts Data}.
Local Open Scope Q_scope.

Lemma on_ext_files {A} (f : Ext -> Outcome A * Ext) (w : ServerState Ext) :
  files (snd (on_ext f w)) = files w.
Proof. unfold on_ext. by destruct (f (ext w)). Qed.

(** Acquisition, index build and training leave the cache directory as
    it is. *)
Lemma rebuild_files (profile_url : str) (w : ServerState Ext) :
  files (snd (rebuild profile_url w)) = files w.
Proof.
  unfold rebuild, bind.
  pose proof (on_ext_files (scrape_profile_posts profile_url) w) as H1.
  destruct (on_ext (scrape_profile_posts profile_url) w) as [[posts|e] w1];
    [|exact H1].
  pose proof (on_ext_files (build_index posts) w1) as H2.
  destruct (on_ext (build_index posts) w1) as [[b|e] w2];
    cbn in *; [|congruence].
  unfold getattr. destruct train as [train_fn|]; cbn; [|congruence].
  pose proof (on_ext_files (train_fn posts) w2) as H3.
  destruct (on_ext (train_fn posts) w2) as [[d|e] w3]; cbn in *; congruence.
Qed.

Lemma cache_usable_iff (force_refresh : bool) (cache_file : str)
    (w : ServerState Ext) :
  cache_usable force_refresh cache_file w = true
  <-> exists f, files w !! cache_file = Some f /\ force_refresh = false
                /\ (time_time (ext w) - mtime f) / 3600 < 24.
Proof.
  unfold cache_usable, is_cache_valid, get_cache_age_hours.
  rewrite andb_true_iff, negb_true_iff. split.
  - intros [Hforce Hvalid].
    destruct (files w !! cache_file) as [f|]; [|discriminate].
    exists f. repeat split; [exact Hforce|]. by apply Qltb_lt.
  - intros (f & -> & Hforce & Hage). split; [exact Hforce|].
    cbn. by apply Qltb_lt.
Qed.

(** The cache block when the cache is not used. *)
Lemma resolve_miss (profile_url cache_file : str) (force_refresh : bool)
    (w : ServerState Ext) :
  cache_usable force_refresh cache_file w = false ->
  resolve profile_url cache_file force_refresh w
  = (trained_data <- rebuild profile_url ;;
     write_cache cache_file trained_data ;;;
     ret (trained_data, false)) w.
Proof.
  intros Hmiss. unfold resolve, get. unfold bind at 1. by rewrite Hmiss.
Qed.

(** C2: the cache is used exactly when the file is there, no refresh is
    forced and its age in hours is below 24; the block then gives what
    [json.load] reads in the file, with [used_cache] true, and leaves
    the state as it is (no collaborator runs); otherwise it runs the
    rebuild and, when that returns, gives its result with [used_cache]
    false and has written it to the file.  An age of 23h59m is a hit,
    an age of 24h01m a rebuild. *)
Theorem cache_valid_iff_fresh (profile_url cache_file : str)
    (force_refresh : bool) (w : ServerState Ext) :
  (cache_usable force_refresh cache_file w = true
   <-> exists f, files w !! cache_file = Some f /\ force_refresh = false
                 /\ (time_time (ext w) - mtime f) / 3600 < 24)
  /\ (forall f, cache_usable force_refresh cache_file w = true ->
                files w !! cache_file = Some f ->
                resolve profile_url cache_file force_refresh w
                = (match json_load (content f) with
                   | Returned trained_data => Returned (trained_data, true)
                   | Raised e => Raised e
                   end, w))
  /\ (cache_usable force_refresh cache_file w = false ->
      resolve profile_url cache_file force_refresh w
      = (trained_data <- rebuild profile_url ;;
         write_cache cache_file trained_data ;;;
         ret (trained_data, false)) w
      /\ forall trained_data used_cache w',
           resolve profile_url cache_file force_refresh w
           = (Returned (trained_data, used_cache), w') ->
           used_cache = false
           /\ exists w1,
                rebuild profile_url w = (Returned trained_data, w1)
                /\ files w' !! cache_file
                   = Some {| mtime := time_time (ext w1);
                             content := (json_dump trained_data).1 |})
  /\ (forall f, files w !! cache_file = Some f ->
                time_time (ext w) == mtime f + (23 * 3600 + 59 * 60) ->
                cache_usable false cache_file w = true)
  /\ (forall f, files w !! cache_file = Some f ->
                time_time (ext w) == mtime f + (24 * 3600 + 60) ->
                cache_usable false cache_file w = false).
Proof.
  split; [apply cache_usable_iff|]. split; [|split; [|split]].
  - intros f Husable Hf. unfold resolve, bind, get. rewrite Husable.
    unfold read_cache, ret. rewrite Hf.
    by destruct (json_load (content f)).
  - intros Hmiss.
    pose proof (resolve_miss profile_url cache_file _ _ Hmiss) as Heq.
    split; [exact Heq|]. rewrite Heq.
    intros trained_data used_cache w'. unfold bind, write_cache, ret.
    destruct (rebuild profile_url w) as [[d|e] w1]; [|discriminate].
    destruct (json_dump d) as [text [e|]] eqn:Hdump; [discriminate|].
    intros [= <- <- <-]. split; [reflexivity|].
    exists w1. split; [reflexivity|]. cbn. rewrite Hdump.
    apply lookup_insert_eq.
  - intros f Hf Hage. apply cache_usable_iff. exists f.
    split; [exact Hf|]. split; [reflexivity|].
    apply Qlt_shift_div_r; [reflexivity|]. lra.
  - intros f Hf Hage.
    destruct (cache_usable false cache_file w) eqn:Husable; [|reflexivity].
    apply cache_usable_iff in Husable as (f' & Hf' & _ & Hfresh).
    rewrite Hf in Hf'. injection Hf' as <-.
    exfalso. apply (Qlt_not_le _ _ Hfresh).
    apply Qle_shift_div_l; [reflexivity|]. lra.
Qed.

(** C7: when the cache is not used and acquisition, index build or
    training raises, the request is answered with a failure that carries
    the exception's text, and the cache directory is as it was before
    the request: no file written, none changed. *)
Theorem failed_rebuild_keeps_cache (req : Request) (w w1 : ServerState Ext)
    (e : Exn) :
  complete req = true ->
  cache_usable (forceRefresh req)
    (get_cache_path (strip (profileName req))) w = false ->
  rebuild (strip (profileUrl req)) w = (Raised e, w1) ->
  resolve (strip (profileUrl req))
    (get_cache_path (strip (profileName req))) (forceRefresh req) w
  = (Raised e, w1)
  /\ generate req w = (failure (exn_str e) 500, w1)
  /\ files w1 = files w.
Proof.
  intros Hreq Hmiss Hfail.
  assert (Hres : resolve (strip (profileUrl req))
                   (get_cache_path (strip (profileName req)))
                   (forceRefresh req) w = (Raised e, w1)).
  { unfold resolve, get. unfold bind at 1. rewrite Hmiss.
    unfold bind. by rewrite Hfail. }
  split; [exact Hres|]. split.
  - unfold generate, generate_body. unfold complete in Hreq. rewrite Hreq.
    cbn [negb]. unfold bind at 1. by rewrite Hres.
  - pose proof (rebuild_files (strip (profileUrl req)) w) as Hfiles.
    by rewrite Hfail in Hfiles.
Qed.

(** C9: for a profile name that is not blank, the cache status says
    [cached] exactly when the cache file of that name exists, and gives
    its age; a file of 24 hours or more is still reported as cached,
    while the condition under which [generate] uses the cache is false
    and its cache block runs the rebuild. *)
Theorem cache_status_ignores_age (profileName : str) (w : ServerState Ext) :
  truthy (strip profileName) = true ->
  (exists cached,
     cache_status profileName w
     = (jsonify
          [(lit "success", JBool true);
           (lit "cached", JBool cached);
           (lit "cache_age_hours",
            json_of_age
              (get_cache_age_hours (get_cache_path (strip profileName)) w))],
        200%nat)
     /\ (cached = true
         <-> is_Some (files w !! get_cache_path (strip profileName))))
  /\ (forall f,
        files w !! get_cache_path (strip profileName) = Some f ->
        24 <= (time_time (ext w) - mtime f) / 3600 ->
        cache_status profileName w
        = (jsonify
             [(lit "success", JBool true);
              (lit "cached", JBool true);
              (lit "cache_age_hours",
               JNumber ((time_time (ext w) - mtime f) / 3600))], 200%nat)
        /\ forall profile_url force_refresh,
             cache_usable force_refresh
               (get_cache_path (strip profileName)) w = false
             /\ resolve profile_url (get_cache_path (strip profileName))
                  force_refresh w
                = (trained_data <- rebuild profile_url ;;
                   write_cache (get_cache_path (strip profileName))
                     trained_data ;;;
                   ret (trained_data, false)) w).
Proof.
  intros Hname. unfold cache_status. rewrite Hname. cbn [negb].
  split.
  - eexists. split; [reflexivity|].
    unfold get_cache_age_hours.
    destruct (files w !! get_cache_path (strip profileName)) as [f|]; cbn.
    + split; [by eexists|done].
    + split; [done|]. intros [f Hf]. discriminate.
  - intros f Hf Hold. unfold get_cache_age_hours. rewrite Hf.
    split; [reflexivity|].
    intros profile_url force_refresh.
    assert (Hmiss : cache_usable force_refresh
                      (get_cache_path (strip profileName)) w = false).
    { destruct (cache_usable force_refresh _ w) eqn:Husable; [|reflexivity].
      apply cache_usable_iff in Husable as (f' & Hf' & _ & Hfresh).
      rewrite Hf in Hf'. injection Hf' as <-.
      exfalso. exact (Qlt_not_le _ _ Hfresh Hold). }
    split; [exact Hmiss|]. by apply resolve_miss.
Qed.

(** ** The generation entry point *)

(** What the [try] block of a complete request returns, when it
    returns. *)
Lemma generate_body_returns (req : Request) (start : Q)
    (w w' : ServerState Ext) (response : Response) :
  complete req = true ->
  generate_body req start w = (Returned response, w') ->
  exists post_text used_cache age seconds,
    response = success_answer post_text used_cache age (JNumber seconds).
Proof.
  intros Hreq. unfold generate_body.
  unfold complete in Hreq. rewrite Hreq. cbn [negb].
  unfold bind at 1.
  destruct (resolve _ _ _ w) as [[[trained_data used_cache]|e] w1];
    [|discriminate].
  unfold bind at 1. unfold getattr.
  destruct create_post as [create_post_fn|]; cbn [ret raise];
    [|discriminate].
  unfold bind at 1.
  destruct (on_ext (create_post_fn _ trained_data) w1) as [[post_text|e] w2];
    [|discriminate].
  unfold bind, get, ret. intros [= <- <-].
  by eexists post_text, used_cache, _, _.
Qed.

(** C1, amended: a request whose three texts are not empty once stripped
    is never answered with the missing-field failure; it is answered
    with a failure of status 500 that carries the text of the exception
    when the cache block or the post generation raises one, and otherwise
    with a success that carries the post text and a [meta] object whose
    fields are exactly [used_cache], [cache_age_hours] and
    [generation_time]. *)
Theorem generate_answers (req : Request) (w : ServerState Ext) :
  complete req = true ->
  (exists e w',
     generate_body req (time_time (ext w)) w = (Raised e, w')
     /\ generate req w = (failure (exn_str e) 500, w'))
  \/ (exists post_text used_cache age seconds w',
        generate_body req (time_time (ext w)) w
        = (Returned (success_answer post_text used_cache age
                       (JNumber seconds)), w')
        /\ generate req w
           = (success_answer post_text used_cache age (JNumber seconds), w')
        /\ meta_fields (fst (generate req w))
           = Some [lit "used_cache"; lit "cache_age_hours";
                   lit "generation_time"]).
Proof.
  intros Hreq. unfold generate.
  destruct (generate_body req (time_time (ext w)) w)
    as [[response|e] w'] eqn:Hbody.
  - right.
    destruct (generate_body_returns _ _ _ _ _ Hreq Hbody)
      as (p & u & a & t & ->).
    by exists p, u, a, t, w'.
  - left. by exists e, w'.
Qed.

(** With the modules as they are in [src/], every complete request is
    answered with a failure: the call of [train_model.train] or of
    [generate_posts.create_post] raises [AttributeError] when nothing
    before it has raised. *)
Lemma generate_fails_in_repository (c : Collaborators Ext Posts Data)
    (req : Request) (w : ServerState Ext) :
  complete req = true ->
  exists e, fst (@generate _ _ _ _ (in_repository c) req w)
            = failure (exn_str e) 500.
Proof.
  intros Hreq. unfold generate, generate_body.
  unfold complete in Hreq. rewrite Hreq. cbn [negb].
  unfold bind at 1.
  destruct (resolve _ _ _ w) as [[[trained_data used_cache]|e] w1];
    [|exists e; reflexivity].
  unfold bind at 1. unfold getattr. cbn.
  eexists (AttributeError _). reflexivity.
Qed.

End cache_facts.

(** Jane's cache file at 23h59m and at 24h01m. *)
Lemma cache_valid_iff_fresh_witness :
  @cache_usable _ _ _ working false (lit "cache/jane_doe.json")
    (site_at (23 * 3600 + 59 * 60)) = true
  /\ @cache_usable _ _ _ working false (lit "cache/jane_doe.json")
       (site_at (24 * 3600 + 60)) = false.
Proof.
  split.
  - destruct (@cache_valid_iff_fresh _ _ _ working
                (strip (profileUrl jane)) (lit "cache/jane_doe.json") false
                (site_at (23 * 3600 + 59 * 60)))
      as (_ & _ & _ & Hhit & _).
    apply (Hhit {| mtime := 0; content := lit "{}" |}).
    + vm_compute. reflexivity.
    + vm_compute. reflexivity.
  - destruct (@cache_valid_iff_fresh _ _ _ working
                (strip (profileUrl jane)) (lit "cache/jane_doe.json") false
                (site_at (24 * 3600 + 60)))
      as (_ & _ & _ & _ & Hmiss).
    apply (Hmiss {| mtime := 0; content := lit "{}" |}).
    + vm_compute. reflexivity.
    + vm_compute. reflexivity.
Defined.

(** Jane's cache is 25 hours old and the browser cannot be started. *)
Lemma failed_rebuild_keeps_cache_witness :
  files (snd (@generate ascii_tables _ _ _ no_browser jane (site_at 90000)))
  = files (site_at 90000).
Proof.
  destruct (@failed_rebuild_keeps_cache ascii_tables _ _ _ no_browser jane
              (site_at 90000)
              (snd (@rebuild _ _ _ no_browser
                      (strip (profileUrl jane)) (site_at 90000)))
              (OtherError (lit "session not created")))
    as (_ & Hgen & Hfiles).
  - vm_compute. reflexivity.
  - vm_compute. reflexivity.
  - vm_compute. reflexivity.
  - rewrite Hgen. exact Hfiles.
Defined.

(** Jane's cache is 25 hours old. *)
Lemma cache_status_ignores_age_witness :
  (forall force_refresh,
     @cache_usable _ _ _ working force_refresh
       (@get_cache_path ascii_tables (strip (lit "Jane Doe")))
       (site_at 90000) = false)
  /\ fst (@cache_status ascii_tables _ _ _ working (lit "Jane Doe")
            (site_at 90000))
     = jsonify [(lit "success", JBool true);
                (lit "cached", JBool true);
                (lit "cache_age_hours", JNumber ((90000 - 0) / 3600))].
Proof.
  destruct (@cache_status_ignores_age ascii_tables _ _ _ working
              (lit "Jane Doe") (site_at 90000)) as [_ Hold].
  - vm_compute. reflexivity.
  - destruct (Hold {| mtime := 0; content := lit "{}" |}) as [Hst Hmiss].
    + vm_compute. reflexivity.
    + vm_compute. discriminate.
    + split; [|rewrite Hst; reflexivity].
      intros force_refresh. apply (Hmiss [] force_refresh).
Defined.

(** Jane's request with a cache two hours old and every collaborator
    answering. *)
Lemma generate_answers_witness :
  meta_fields (fst (@generate ascii_tables _ _ _ working jane (site_at 7200)))
  = Some [lit "used_cache"; lit "cache_age_hours"; lit "generation_time"].
Proof.
  destruct (@generate_answers ascii_tables _ _ _ working jane (site_at 7200))
    as [(e & w' & Hbody & _) | (p & u & a & t & w' & _ & _ & Hmeta)].
  - vm_compute. reflexivity.
  - vm_compute in Hbody. discriminate Hbody.
  - exact Hmeta.
Defined.

(** C1, counterexample: Jane's request is complete.  With every
    collaborator answering and a cache two hours old, the [meta] object
    has a field [generation_time] and none called
    [generation_time_seconds]; with the modules as they are in [src/], a
    browser that cannot be started and a cache 25 hours old, the answer
    is a failure of status 500. *)
Lemma generate_meta_and_failure :
  complete jane = true
  /\ meta_fields
       (fst (@generate ascii_tables _ _ _ working jane (site_at 7200)))
     = Some [lit "used_cache"; lit "cache_age_hours"; lit "generation_time"]
  /\ meta_fields
       (fst (@generate ascii_tables _ _ _ working jane (site_at 7200)))
     <> Some [lit "used_cache"; lit "cache_age_hours";
              lit "generation_time_seconds"]
  /\ fst (@generate ascii_tables _ _ _ (in_repository no_browser) jane
            (site_at 90000))
     = failure (lit "session not created") 500.
Proof.
  repeat split; try (vm_compute; reflexivity).
  vm_compute. discriminate.
Qed.

(** ** Python text: stripping *)

Section strip_facts.

Lemma linebreak_is_space (c : char) :
  is_linebreak c = true -> is_space c = true.
Proof.
  unfold is_linebreak, is_space.
  rewrite !orb_true_iff, !andb_true_iff, !N.leb_le, !N.eqb_eq. lia.
Qed.

Lemma ink_not_linebreak (c : char) : ink c -> is_linebreak c = false.
Proof.
  unfold ink. intros Hc. destruct (is_linebreak c) eqn:E; [|done].
  apply linebreak_is_space in E. congruence.
Qed.

Lemma contains_elem (c : char) (s : str) : contains c s = true <-> c ∈ s.
Proof.
  unfold contains. rewrite existsb_exists. split.
  - intros (d & Hd & Heq). apply N.eqb_eq in Heq. subst d.
    by apply list_elem_of_In.
  - intros Hc. exists c. split; [by apply list_elem_of_In|apply N.eqb_refl].
Qed.

Lemma contains_app (c : char) (s t : str) :
  contains c (s ++ t) = contains c s || contains c t.
Proof. unfold contains. apply existsb_app. Qed.

Lemma rstrip_cons (c : char) (r : str) :
  rstrip (c :: r)
  = if truthy (rstrip r) || negb (is_space c) then c :: rstrip r else [].
Proof. cbn. destruct (rstrip r); by destruct (is_space c). Qed.

Lemma rstrip_cons_ink (c : char) (r : str) :
  ink c -> rstrip (c :: r) = c :: rstrip r.
Proof.
  unfold ink. intros Hc. rewrite rstrip_cons, Hc. by rewrite orb_true_r.
Qed.

Lemma lstrip_blank (s : str) : blank s -> lstrip s = [].
Proof. induction 1 as [|c r Hc _ IH]; [done|]. cbn. by rewrite Hc. Qed.

Lemma rstrip_blank (s : str) : blank s -> rstrip s = [].
Proof. induction 1 as [|c r Hc _ IH]; [done|]. cbn. by rewrite IH, Hc. Qed.

Lemma strip_blank (s : str) : blank s -> strip s = [].
Proof. intros Hs. unfold strip. by rewrite lstrip_blank. Qed.

Lemma lstrip_keeps_ink (c : char) (s : str) :
  ink c -> c ∈ s -> c ∈ lstrip s.
Proof.
  unfold ink. intros Hc. induction s as [|d r IH]; [done|].
  cbn. destruct (is_space d) eqn:Hd; [|done].
  intros [->|Hin]%elem_of_cons; [congruence|by apply IH].
Qed.

Lemma rstrip_keeps_ink (c : char) (s : str) :
  ink c -> c ∈ s -> c ∈ rstrip s.
Proof.
  intros Hc. induction s as [|d r IH]; [done|].
  intros [->|Hin]%elem_of_cons.
  - rewrite rstrip_cons_ink by done. apply elem_of_cons. by left.
  - specialize (IH Hin). rewrite rstrip_cons.
    destruct (rstrip r); [by apply elem_of_nil in IH|].
    cbn. apply elem_of_cons. by right.
Qed.

Lemma strip_keeps_ink (c : char) (s : str) : ink c -> c ∈ s -> c ∈ strip s.
Proof.
  intros Hc Hin. unfold strip.
  by apply rstrip_keeps_ink, lstrip_keeps_ink.
Qed.

Lemma lstrip_sub (c : char) (s : str) : c ∈ lstrip s -> c ∈ s.
Proof.
  induction s as [|d r IH]; [done|]. cbn.
  destruct (is_space d); [|done].
  intros Hin. apply elem_of_cons. right. by apply IH.
Qed.

Lemma rstrip_sub (c : char) (s : str) : c ∈ rstrip s -> c ∈ s.
Proof.
  induction s as [|d r IH]; [done|]. rewrite rstrip_cons.
  destruct (truthy (rstrip r) || negb (is_space d));
    [|by intros ?%elem_of_nil].
  intros [->|Hin]%elem_of_cons; apply elem_of_cons; [by left|].
  right. by apply IH.
Qed.

Lemma strip_sub (c : char) (s : str) : c ∈ strip s -> c ∈ s.
Proof. intros Hin. by apply lstrip_sub, rstrip_sub. Qed.

Lemma has_ink_elem (s : str) : has_ink s <-> exists c, c ∈ s /\ ink c.
Proof. apply Exists_exists. Qed.

Lemma blank_or_ink (s : str) : blank s \/ has_ink s.
Proof.
  induction s as [|c r [IH|IH]].
  - left. constructor.
  - destruct (is_space c) eqn:Hc.
    + left. by constructor.
    + right. by constructor.
  - right. by constructor 2.
Qed.

Lemma strip_has_ink (s : str) : has_ink s -> strip s <> [].
Proof.
  intros (c & Hin & Hc)%has_ink_elem Hnil.
  pose proof (strip_keeps_ink c s Hc Hin) as Hs.
  rewrite Hnil in Hs. by apply elem_of_nil in Hs.
Qed.

End strip_facts.

(** ** Python text: lines *)

Section line_facts.

Lemma splitlines_boundary (c : char) (r : str) :
  is_linebreak c = true ->
  splitlines (c :: r) = [] :: splitlines (after_boundary c r).
Proof.
  intros Hc. cbn. rewrite Hc. destruct r as [|d r']; [done|].
  cbn. by destruct ((c =? CR)%N && (d =? LF)%N).
Qed.

Lemma splitlines_inside (c : char) (r : str) :
  is_linebreak c = false ->
  splitlines (c :: r)
  = match splitlines r with
    | [] => [[c]]
    | l :: ls => (c :: l) :: ls
    end.
Proof. intros Hc. cbn. by rewrite Hc. Qed.

Lemma after_boundary_length (c : char) (r : str) :
  (length (after_boundary c r) <= length r)%nat.
Proof.
  destruct r as [|d r']; [done|]. cbn.
  destruct ((c =? CR)%N && (d =? LF)%N); cbn; lia.
Qed.

Lemma after_boundary_sub (c d : char) (r : str) :
  d ∈ after_boundary c r -> d ∈ r.
Proof.
  destruct r as [|d' r']; [done|]. cbn.
  destruct ((c =? CR)%N && (d' =? LF)%N); [|done].
  intros Hin. apply elem_of_cons. by right.
Qed.

Lemma after_boundary_keeps (c d : char) (r : str) :
  is_linebreak d = false -> d ∈ r -> d ∈ after_boundary c r.
Proof.
  intros Hd. destruct r as [|d' r']; [done|]. cbn.
  destruct ((c =? CR)%N && (d' =? LF)%N) eqn:E; [|done].
  apply andb_true_iff in E as [_ ->%N.eqb_eq].
  intros [->|Hin]%elem_of_cons; [discriminate|done].
Qed.

(** Induction on a text along the way [splitlines] reads it. *)
Lemma splitlines_ind (P : str -> Prop) :
  P [] ->
  (forall c r, is_linebreak c = true -> P (after_boundary c r) ->
               P (c :: r)) ->
  (forall c r, is_linebreak c = false -> P r -> P (c :: r)) ->
  forall s, P s.
Proof.
  intros Hnil Hbreak Hin s.
  remember (length s) as n eqn:Hn. revert s Hn.
  induction n as [n IH] using lt_wf_ind. intros s Hn.
  destruct s as [|c r]; [exact Hnil|].
  destruct (is_linebreak c) eqn:Hc.
  - apply Hbreak; [exact Hc|].
    apply (IH (length (after_boundary c r))); [|done].
    pose proof (after_boundary_length c r). cbn in Hn. lia.
  - apply Hin; [exact Hc|]. apply (IH (length r)); [|done].
    cbn in Hn. lia.
Qed.

(** The characters of the lines are characters of the text. *)
Lemma splitlines_sub (s : str) :
  forall line c, line ∈ splitlines s -> c ∈ line -> c ∈ s.
Proof.
  induction s as [|d r Hd IH|d r Hd IH] using splitlines_ind;
    intros line c Hline Hc.
  - by apply elem_of_nil in Hline.
  - rewrite splitlines_boundary in Hline by done.
    apply elem_of_cons in Hline as [->|Hline];
      [by apply elem_of_nil in Hc|].
    apply elem_of_cons. right.
    eapply after_boundary_sub, IH; eassumption.
  - rewrite splitlines_inside in Hline by done.
    destruct (splitlines r) as [|l ls].
    + apply list_elem_of_singleton in Hline. subst line.
      apply list_elem_of_singleton in Hc. subst c. apply list_elem_of_here.
    + apply elem_of_cons in Hline as [->|Hline].
      * apply elem_of_cons in Hc as [->|Hc]; [set_solver|].
        apply elem_of_cons. right. apply (IH l); [set_solver|done].
      * apply elem_of_cons. right. apply (IH line); [set_solver|done].
Qed.

(** A character that is no boundary is on one of the lines. *)
Lemma splitlines_covers (s : str) :
  forall c, c ∈ s -> is_linebreak c = false ->
            exists line, line ∈ splitlines s /\ c ∈ line.
Proof.
  induction s as [|d r Hd IH|d r Hd IH] using splitlines_ind;
    intros c Hc Hnb.
  - by apply elem_of_nil in Hc.
  - rewrite splitlines_boundary by done.
    apply elem_of_cons in Hc as [->|Hc]; [congruence|].
    destruct (IH c) as (line & Hline & Hin);
      [by apply after_boundary_keeps|done|].
    exists line. split; [|done]. apply elem_of_cons. by right.
  - rewrite splitlines_inside by done.
    apply elem_of_cons in Hc as [->|Hc].
    + destruct (splitlines r) as [|l ls]; eexists; split;
        try apply elem_of_cons; try (left; reflexivity); set_solver.
    + destruct (IH c Hc Hnb) as (line & Hline & Hin).
      destruct (splitlines r) as [|l ls]; [by apply elem_of_nil in Hline|].
      apply elem_of_cons in Hline as [->|Hline].
      * exists (d :: l). set_solver.
      * exists line. set_solver.
Qed.

Lemma splitlines_one_line (s : str) :
  Forall one_line (splitlines s).
Proof.
  induction s as [|d r Hd IH|d r Hd IH] using splitlines_ind.
  - constructor.
  - rewrite splitlines_boundary by done. constructor; [constructor|done].
  - rewrite splitlines_inside by done.
    destruct (splitlines r) as [|l ls]; [by repeat constructor|].
    inversion IH; subst. constructor; [by constructor|done].
Qed.

Lemma elem_of_join (sep : str) (parts : list str) (x : str) (c : char) :
  x ∈ parts -> c ∈ x -> c ∈ join sep parts.
Proof.
  intros Hx Hc. induction parts as [|y rest IH]; [by apply elem_of_nil in Hx|].
  apply elem_of_cons in Hx as [->|Hx].
  - destruct rest; cbn; [done|]. apply elem_of_app. by left.
  - specialize (IH Hx). destruct rest as [|z rest];
      [by apply elem_of_nil in Hx|].
    cbn in *. rewrite !elem_of_app. right; right. exact IH.
Qed.

End line_facts.

(** ** Python text: stripped texts and joined lines *)

Section layout_facts.

Lemma lstrip_length (s : str) : (length (lstrip s) <= length s)%nat.
Proof.
  induction s as [|c r IH]; [done|]. cbn.
  destruct (is_space c); cbn; lia.
Qed.

Lemma lstrip_fixed (s : str) :
  lstrip s = s -> s = [] \/ exists c r, s = c :: r /\ ink c.
Proof.
  destruct s as [|c r]; [by left|]. intros Hs. right.
  exists c, r. split; [done|]. unfold ink.
  destruct (is_space c) eqn:Hc; [|done]. cbn in Hs. rewrite Hc in Hs.
  pose proof (lstrip_length r) as Hlen. rewrite Hs in Hlen. cbn in Hlen. lia.
Qed.

Lemma lstrip_ink_head (c : char) (r : str) : ink c -> lstrip (c :: r) = c :: r.
Proof. unfold ink. intros Hc. cbn. by rewrite Hc. Qed.

Lemma lstrip_app_l (a b : str) :
  a <> [] -> lstrip a = a -> lstrip (a ++ b) = a ++ b.
Proof.
  intros Ha [->|(c & r & -> & Hc)]%lstrip_fixed; [done|].
  by apply lstrip_ink_head.
Qed.

Lemma rstrip_app_r (a b : str) :
  rstrip b <> [] -> rstrip (a ++ b) = a ++ rstrip b.
Proof.
  intros Hb. induction a as [|c a IH]; [done|].
  cbn [app]. rewrite rstrip_cons, IH.
  destruct (a ++ rstrip b) eqn:E; [|done].
  by apply app_eq_nil in E as [_ ?].
Qed.

Lemma rstrip_idem (s : str) : rstrip (rstrip s) = rstrip s.
Proof.
  induction s as [|c r IH]; [done|]. rewrite rstrip_cons.
  destruct (rstrip r) as [|d r'] eqn:E.
  - cbn [truthy orb]. destruct (is_space c) eqn:Hc; cbn; [done|].
    by rewrite Hc.
  - cbn [truthy orb]. rewrite rstrip_cons, IH. done.
Qed.

Lemma rstrip_all_ink (s : str) : Forall ink s -> rstrip s = s.
Proof.
  induction 1 as [|c r Hc _ IH]; [done|].
  by rewrite rstrip_cons_ink, IH.
Qed.

Lemma stripped_nil : stripped [].
Proof. done. Qed.

Lemma stripped_strip (s : str) : stripped (strip s).
Proof.
  unfold stripped, strip. split; [|apply rstrip_idem].
  destruct (lstrip s) as [|c r] eqn:E; [done|].
  assert (Hc : ink c).
  { assert (Hfix : lstrip (lstrip s) = lstrip s).
    { clear E. induction s as [|d t IH]; [done|]. cbn.
      destruct (is_space d) eqn:Hd; [done|]. cbn. by rewrite Hd. }
    rewrite E in Hfix. apply lstrip_fixed in Hfix as [?|(c' & r' & [= <- <-] & ?)];
      done. }
  rewrite rstrip_cons_ink by done. by apply lstrip_ink_head.
Qed.

Lemma strip_stripped (s : str) : stripped s -> strip s = s.
Proof. intros [Hl Hr]. unfold strip. by rewrite Hl. Qed.

Lemma stripped_app (a b : str) :
  a <> [] -> b <> [] -> lstrip a = a -> rstrip b = b -> stripped (a ++ b).
Proof.
  intros Ha Hb Hla Hrb. split; [by apply lstrip_app_l|].
  rewrite rstrip_app_r; by rewrite Hrb.
Qed.

Lemma stripped_glued (a m b : str) :
  a <> [] -> b <> [] -> stripped a -> stripped b -> stripped (a ++ m ++ b).
Proof.
  intros Ha Hb [Hla _] [_ Hrb]. apply stripped_app; try done.
  - by destruct m.
  - rewrite rstrip_app_r; by rewrite Hrb.
Qed.

Lemma clean_one_line (s : str) : clean s -> one_line s.
Proof. by intros (_ & _ & ?). Qed.

Lemma clean_strip (s : str) : clean s -> strip s = s.
Proof. intros (_ & ? & _). by apply strip_stripped. Qed.

Lemma clean_truthy (s : str) : clean s -> truthy s = true.
Proof. intros (? & _). by destruct s. Qed.

(** A line followed by a line feed. *)
Lemma splitlines_line_then (a b : str) :
  one_line a -> splitlines (a ++ LF :: b) = a :: splitlines b.
Proof.
  induction 1 as [|c r Hc _ IH].
  - cbn [app]. rewrite splitlines_boundary by done.
    by destruct b.
  - cbn [app]. rewrite splitlines_inside by done. by rewrite IH.
Qed.

Lemma splitlines_single (a : str) :
  one_line a -> a <> [] -> splitlines a = [a].
Proof.
  induction 1 as [|c r Hc Hr IH]; [done|]. intros _.
  rewrite splitlines_inside by done.
  destruct r as [|d r']; [done|]. by rewrite IH.
Qed.

Lemma join_cons (sep x : str) (rest : list str) :
  rest <> [] -> join sep (x :: rest) = x ++ sep ++ join sep rest.
Proof. by destruct rest. Qed.

Lemma join_nil_inv (sep : str) (parts : list str) :
  Forall (fun x => x <> []) parts -> join sep parts = [] -> parts = [].
Proof.
  destruct 1 as [|x rest Hx Hrest]; [done|].
  destruct rest; cbn; [done|]. by intros [? _]%app_eq_nil.
Qed.

(** Lines joined by line feeds, then a line feed. *)
Lemma splitlines_join_then (lines : list str) (b : str) :
  Forall one_line lines -> lines <> [] ->
  splitlines (join [LF] lines ++ LF :: b) = lines ++ splitlines b.
Proof.
  induction 1 as [|x rest Hx Hrest IH]; [done|]. intros _.
  destruct rest as [|y rest].
  - cbn [join]. by apply splitlines_line_then.
  - rewrite join_cons by done. cbn [app].
    rewrite <- !app_assoc. cbn [app].
    rewrite splitlines_line_then by done. by rewrite IH.
Qed.

Lemma splitlines_join (lines : list str) :
  Forall clean lines -> splitlines (join [LF] lines) = lines.
Proof.
  induction 1 as [|x rest Hx Hrest IH]; [done|].
  destruct rest as [|y rest].
  - cbn [join]. apply splitlines_single; [by apply clean_one_line|].
    by destruct Hx.
  - rewrite join_cons by done. cbn [app].
    rewrite splitlines_line_then by (by apply clean_one_line).
    by rewrite IH.
Qed.

(** Clean lines joined by line feeds make a stripped text. *)
Lemma join_clean_stripped (lines : list str) :
  Forall clean lines -> stripped (join [LF] lines).
Proof.
  induction 1 as [|x rest Hx Hrest IH]; [done|].
  destruct rest as [|y rest]; [by destruct Hx as (_ & ? & _)|].
  rewrite join_cons by done.
  destruct Hx as (Hne & Hsx & _).
  apply stripped_glued; try done.
  intros Hnil. apply join_nil_inv in Hnil; [done|].
  eapply Forall_impl; [exact Hrest|]. by intros ? (? & _).
Qed.

Lemma join_clean_nonempty (lines : list str) :
  Forall clean lines -> lines <> [] -> join [LF] lines <> [].
Proof.
  intros Hclean Hne Hnil. apply join_nil_inv in Hnil; [done|].
  eapply Forall_impl; [exact Hclean|]. by intros ? (? & _).
Qed.

End layout_facts.

(** ** The normaliser *)

Section normaliser_facts.
Context `{CaseTables}.

(** What the loop of [deduplicate_text] keeps: [seen] stays the set of
    the kept lines, and a line is kept when it was kept before or is the
    stripped, non-empty form of a line read. *)
Lemma dedup_fold (ls : list str) :
  forall (lines : list str) (seen : gset str),
    (forall x, x ∈ seen <-> x ∈ lines) ->
    (forall x, x ∈ (fold_left dedup_step ls (lines, seen)).2
               <-> x ∈ (fold_left dedup_step ls (lines, seen)).1)
    /\ (forall x, x ∈ (fold_left dedup_step ls (lines, seen)).1
                  <-> x ∈ lines
                      \/ (x <> [] /\ exists line, line ∈ ls
                                                /\ x = strip line)).
Proof.
  induction ls as [|line ls IH]; intros lines seen Hseen.
  - cbn. split; [done|]. intros x. split; [by left|].
    intros [Hx|(_ & l & Hl & _)]; [done|by apply elem_of_nil in Hl].
  - cbn [fold_left]. unfold dedup_step at 2 4 6.
    destruct (truthy (strip line) && bool_decide (strip line ∉ seen)) eqn:E.
    + apply andb_true_iff in E as [Hne Hnew].
      destruct (IH (lines ++ [strip line]) (seen ∪ {[strip line]}))
        as [IH1 IH2].
      { intros x. rewrite elem_of_union, elem_of_singleton, elem_of_app,
          list_elem_of_singleton. by rewrite Hseen. }
      split; [exact IH1|]. intros x. rewrite IH2.
      rewrite elem_of_app, list_elem_of_singleton. split.
      * intros [[Hx| ->]|(Hx & l & Hl & ->)]; [by left| |].
        -- right. split; [by destruct (strip line)|].
           exists line. split; [by left|done].
        -- right. split; [done|]. exists l. split; [by right|done].
      * intros [Hx|(Hx & l & Hl & ->)]; [by left; left|].
        apply elem_of_cons in Hl as [->|Hl]; [by left; right|].
        right. split; [done|]. by exists l.
    + destruct (IH lines seen Hseen) as [IH1 IH2].
      split; [exact IH1|]. intros x. rewrite IH2. split.
      * intros [Hx|(Hx & l & Hl & ->)]; [by left|].
        right. split; [done|]. exists l. split; [by right|done].
      * intros [Hx|(Hx & l & Hl & ->)]; [by left|].
        apply elem_of_cons in Hl as [->|Hl].
        -- left. apply andb_false_iff in E as [E|E].
           ++ by destruct (strip line).
           ++ apply bool_decide_eq_false in E.
              apply Hseen. by apply dec_stable.
        -- right. split; [done|]. by exists l.
Qed.

(** A text with a character that is not white space does not
    deduplicate to the empty text. *)
Lemma deduplicate_text_has_ink (text : str) :
  has_ink text -> deduplicate_text text <> [].
Proof.
  intros (c & Hin & Hc)%has_ink_elem.
  destruct (splitlines_covers text c Hin (ink_not_linebreak c Hc))
    as (line & Hline & Hcl).
  unfold deduplicate_text.
  destruct (dedup_fold (splitlines text) [] ∅) as [_ Hkept]; [set_solver|].
  destruct (fold_left dedup_step (splitlines text) ([], ∅))
    as [lines seen]. cbn in Hkept.
  apply strip_has_ink, has_ink_elem. exists c. split; [|done].
  apply (elem_of_join _ _ (strip line)); [|by apply strip_keeps_ink].
  apply Hkept. right. split; [|by exists line].
  apply strip_has_ink, has_ink_elem. by exists c.
Qed.

(** A text of white space only deduplicates to the empty text. *)
Lemma deduplicate_text_blank (text : str) :
  blank text -> deduplicate_text text = [].
Proof.
  intros Hblank. unfold deduplicate_text.
  destruct (dedup_fold (splitlines text) [] ∅) as [_ Hkept]; [set_solver|].
  destruct (fold_left dedup_step (splitlines text) ([], ∅))
    as [lines seen]. cbn in Hkept.
  assert (lines = []) as ->; [|done].
  destruct lines as [|x lines]; [done|]. exfalso.
  destruct (Hkept x) as [[Hx|(Hx & line & Hline & ->)] _]; [by left|set_solver|].
  apply Hx, strip_blank. unfold blank in *. rewrite Forall_forall in *.
  intros c Hc. apply Hblank. by eapply splitlines_sub.
Qed.

Lemma closing_prompt_asks : contains QUESTION CLOSING_PROMPT = true.
Proof. reflexivity. Qed.

Lemma apply_post_processing_asks (post idea : str) :
  post <> [] -> contains QUESTION (apply_post_processing post idea) = true.
Proof.
  intros Hpost. unfold apply_post_processing.
  destruct post as [|c r]; [done|]. cbn [truthy negb].
  match goal with |- context [if truthy ?h then ?a else ?b] =>
    set (post2 := if truthy h then a else b)
  end.
  apply contains_elem, strip_keeps_ink; [reflexivity|].
  apply contains_elem.
  destruct (contains QUESTION post2) eqn:E; cbn [negb]; [done|].
  rewrite !contains_app, closing_prompt_asks.
  by rewrite !orb_true_r.
Qed.

(** C6, amended: for every idea text, the normalised form of a text
    with at least one character that is not white space contains a
    question mark; the normalised form of a text with none is the empty
    text. *)
Theorem normalize_asks_unless_blank (raw idea : str) :
  (has_ink raw -> contains QUESTION (normalize raw idea) = true)
  /\ (blank raw -> normalize raw idea = []).
Proof.
  split.
  - intros Hraw. by apply apply_post_processing_asks,
      deduplicate_text_has_ink.
  - intros Hraw. unfold normalize. by rewrite deduplicate_text_blank.
Qed.

End normaliser_facts.

(** ** The normaliser on its own output *)

Section renormalise_facts.
Context `{CaseTables}.

Lemma filter_truthy_clean (lines : list str) :
  Forall clean lines -> List.filter truthy lines = lines.
Proof.
  induction 1 as [|x rest Hx _ IH]; [done|].
  cbn. by rewrite (clean_truthy x Hx), IH.
Qed.

Lemma filter_truthy_app (a b : list str) :
  List.filter truthy (a ++ b) = List.filter truthy a ++ List.filter truthy b.
Proof. apply List.filter_app. Qed.

Lemma elem_of_filter_truthy (x : str) (ls : list str) :
  x ∈ List.filter truthy ls <-> x ∈ ls /\ x <> [].
Proof.
  rewrite !list_elem_of_In, filter_In. destruct x; cbn; intuition congruence.
Qed.

(** The loop of [deduplicate_text] on lines that are empty or clean and,
    for those that are not empty, new and all different: they are kept
    as they come. *)
Lemma dedup_fold_exact (ls : list str) :
  forall (lines : list str) (seen : gset str),
    (forall x, x ∈ seen <-> x ∈ lines) ->
    Forall (fun l => l = [] \/ clean l) ls ->
    NoDup (List.filter truthy ls) ->
    (forall x, x ∈ ls -> x <> [] -> x ∉ lines) ->
    (fold_left dedup_step ls (lines, seen)).1
    = lines ++ List.filter truthy ls.
Proof.
  induction ls as [|l ls IH]; intros lines seen Hseen Hls Hnd Hnew.
  - cbn. by rewrite app_nil_r.
  - apply Forall_cons in Hls as [[->|Hl] Hls].
    + cbn. apply IH; try done.
      intros x Hx. apply Hnew. by right.
    + cbn [fold_left]. unfold dedup_step at 2.
      rewrite (clean_strip l Hl), (clean_truthy l Hl).
      cbn [List.filter] in *. rewrite (clean_truthy l Hl) in *.
      apply NoDup_cons in Hnd as [Hfresh Hnd].
      assert (Hl_new : l ∉ seen).
      { rewrite Hseen. apply Hnew; [by left|]. by destruct Hl. }
      rewrite bool_decide_eq_true_2 by done. cbn [andb].
      rewrite IH; try done.
      * by rewrite <- app_assoc.
      * intros x. rewrite elem_of_union, elem_of_singleton, elem_of_app,
          list_elem_of_singleton. by rewrite Hseen.
      * intros x Hx Hne. rewrite elem_of_app, list_elem_of_singleton.
        intros [Hin| ->].
        -- by apply (Hnew x); [right|..].
        -- apply Hfresh. by apply elem_of_filter_truthy.
Qed.

Lemma deduplicate_text_lines (text : str) :
  Forall (fun l => l = [] \/ clean l) (splitlines text) ->
  NoDup (List.filter truthy (splitlines text)) ->
  deduplicate_text text = join [LF] (List.filter truthy (splitlines text)).
Proof.
  intros Hls Hnd. unfold deduplicate_text.
  pose proof (dedup_fold_exact (splitlines text) [] ∅) as Hfold.
  destruct (fold_left dedup_step (splitlines text) ([], ∅))
    as [lines seen]. cbn in Hfold.
  rewrite Hfold by first [done | set_solver]. cbn [app].
  apply strip_stripped, join_clean_stripped.
  apply Forall_forall. intros x [Hx Hne]%elem_of_filter_truthy.
  rewrite Forall_forall in Hls. by destruct (Hls x Hx).
Qed.

Lemma strip_one_line (s : str) : one_line s -> one_line (strip s).
Proof.
  unfold one_line. rewrite !Forall_forall. intros Hs c Hc.
  by apply Hs, strip_sub.
Qed.

(** The loop of [deduplicate_text] keeps clean lines, all different. *)
Lemma dedup_fold_clean (ls : list str) :
  forall (lines : list str) (seen : gset str),
    (forall x, x ∈ seen <-> x ∈ lines) ->
    Forall one_line ls -> Forall clean lines -> NoDup lines ->
    Forall clean (fold_left dedup_step ls (lines, seen)).1
    /\ NoDup (fold_left dedup_step ls (lines, seen)).1.
Proof.
  induction ls as [|l ls IH]; intros lines seen Hseen Hls Hclean Hnd; [done|].
  apply Forall_cons in Hls as [Hl Hls].
  cbn [fold_left]. unfold dedup_step at 2 4.
  destruct (truthy (strip l) && bool_decide (strip l ∉ seen)) eqn:E;
    [|by apply IH].
  apply andb_true_iff in E as [Hne Hnew].
  apply bool_decide_eq_true in Hnew.
  apply IH; try done.
  - intros x. rewrite elem_of_union, elem_of_singleton, elem_of_app,
      list_elem_of_singleton. by rewrite Hseen.
  - apply Forall_app. split; [done|]. constructor; [|done].
    split; [by destruct (strip l)|].
    split; [apply stripped_strip|by apply strip_one_line].
  - apply NoDup_app. split; [done|]. split; [|apply NoDup_singleton].
    intros x Hx ->%list_elem_of_singleton. by apply Hnew, Hseen.
Qed.

(** What [deduplicate_text] returns: clean lines, all different, joined
    by line feeds. *)
Lemma deduplicate_text_form (text : str) :
  exists lines,
    deduplicate_text text = join [LF] lines
    /\ Forall clean lines /\ NoDup lines.
Proof.
  unfold deduplicate_text.
  destruct (dedup_fold_clean (splitlines text) [] ∅) as [Hclean Hnd];
    [set_solver|apply splitlines_one_line|done|apply NoDup_nil_2|].
  destruct (fold_left dedup_step (splitlines text) ([], ∅))
    as [lines seen]. cbn in *.
  exists lines. split; [|done].
  by apply strip_stripped, join_clean_stripped.
Qed.

Lemma paragraphs_cons_nil (ps : list str) :
  paragraphs ([] :: ps) = paragraphs ps.
Proof. done. Qed.

Lemma paragraphs_cons (p : str) (ps : list str) :
  p <> [] -> paragraphs (p :: ps) = glue p (paragraphs ps).
Proof.
  intros Hp. unfold paragraphs, glue. cbn [List.filter].
  destruct p as [|c r]; [done|]. cbn [truthy].
  destruct (List.filter truthy ps) as [|q qs] eqn:E; [done|].
  rewrite join_cons by done.
  destruct (join [LF; LF] (q :: qs)) eqn:Ej; [|done].
  apply join_nil_inv in Ej; [done|].
  rewrite <- E. apply Forall_forall.
  by intros x [_ ?]%elem_of_filter_truthy.
Qed.

Lemma stripped_paragraphs (ps : list str) :
  Forall stripped ps -> stripped (paragraphs ps).
Proof.
  induction 1 as [|p ps Hp _ IH]; [done|].
  destruct p as [|c r]; [done|].
  rewrite paragraphs_cons by done. unfold glue.
  destruct (paragraphs ps) eqn:E; [done|].
  cbn [truthy]. by apply stripped_glued.
Qed.

Lemma strip_lead (s : str) : strip ([LF; LF] ++ s) = strip s.
Proof. done. Qed.

(** The text that [apply_post_processing] strips at its end, made of
    three stripped parts. *)
Lemma strip_glue3 (p1 p2 p3 : str) :
  stripped p1 -> stripped p2 -> stripped p3 ->
  strip (glue (glue p1 p2) p3) = paragraphs [p1; p2; p3].
Proof.
  intros H1 H2 H3.
  assert (Hs : stripped (paragraphs [p1; p2; p3])).
  { apply stripped_paragraphs.
    repeat first [apply Forall_nil_2 | apply Forall_cons_2]; done. }
  destruct p1 as [|c1 r1], p2 as [|c2 r2], p3 as [|c3 r3];
    cbn [glue truthy app] in *; rewrite ?strip_lead;
    unfold paragraphs in *; cbn [List.filter truthy join] in *;
    try done; try (by apply strip_stripped).
  all: repeat match goal with
         | |- context [strip (LF :: LF :: ?x)] =>
             change (strip (LF :: LF :: x)) with (strip x)
         end.
  all: rewrite <- ?app_assoc; by apply strip_stripped.
Qed.

(** The lines of paragraphs made of clean lines: the lines of the
    paragraphs, an empty line between two paragraphs. *)
Lemma paragraphs_lines (blocks : list (list str)) :
  Forall (Forall clean) blocks ->
  List.filter truthy (splitlines (paragraphs (map (join [LF]) blocks)))
  = concat blocks
  /\ Forall (fun l => l = [] \/ clean l)
       (splitlines (paragraphs (map (join [LF]) blocks))).
Proof.
  induction 1 as [|b bs Hb _ [IH1 IH2]]; [done|].
  cbn [map concat].
  destruct b as [|x b]; [done|].
  rewrite paragraphs_cons by (by apply join_clean_nonempty).
  unfold glue.
  destruct (paragraphs (map (join [LF]) bs)) as [|c r] eqn:E.
  - cbn [truthy]. rewrite splitlines_join by done.
    cbn in IH1. rewrite <- IH1, app_nil_r. split.
    + by apply filter_truthy_clean.
    + eapply Forall_impl; [exact Hb|]. by right.
  - cbn [truthy app].
    rewrite splitlines_join_then;
      [|eapply Forall_impl; [exact Hb|apply clean_one_line]|done].
    rewrite splitlines_boundary by done.
    change (after_boundary LF (c :: r)) with (c :: r).
    rewrite filter_truthy_app, (filter_truthy_clean _ Hb).
    cbn [List.filter truthy]. rewrite IH1. split; [done|].
    apply Forall_app. split.
    + eapply Forall_impl; [exact Hb|]. by right.
    + constructor; [by left|done].
Qed.

Lemma split_cons (c : char) (r : str) :
  split (c :: r)
  = if is_space c then split r
    else match r with
         | [] => [[c]]
         | d :: _ =>
             if is_space d then [c] :: split r
             else match split r with
                  | w :: ws => (c :: w) :: ws
                  | [] => [[c]]
                  end
         end.
Proof. by destruct r. Qed.

(** The words of [split] have no white space in them. *)
Lemma split_ink (s : str) : Forall (Forall ink) (split s).
Proof.
  induction s as [|c r IH]; [constructor|].
  rewrite split_cons. destruct (is_space c) eqn:Hc; [done|].
  destruct r as [|d r']; [by repeat constructor|].
  destruct (is_space d); [by repeat constructor|].
  destruct (split (d :: r')) as [|w ws]; [by repeat constructor|].
  apply Forall_cons in IH as [Hw Hws].
  constructor; [by constructor|done].
Qed.

Lemma join_head (sep : str) (c : char) (r : str) (rest : list str) :
  exists tail, join sep ((c :: r) :: rest) = c :: tail.
Proof. destruct rest; cbn; by eexists. Qed.

(** Words without white space, joined by single spaces. *)
Lemma join_words (ws : list str) :
  Forall (fun t => t <> [] /\ Forall ink t) ws ->
  one_line (join [SPACE] ws)
  /\ rstrip (join [SPACE] ws) = join [SPACE] ws
  /\ (ws <> [] -> join [SPACE] ws <> []).
Proof.
  induction 1 as [|x rest [Hne Hx] Hrest (IH1 & IH2 & IH3)];
    [by repeat split; [constructor|..]|].
  assert (Hone : one_line x).
  { eapply Forall_impl; [exact Hx|]. apply ink_not_linebreak. }
  destruct rest as [|y rest].
  - cbn. repeat split; [done|by apply rstrip_all_ink|done].
  - rewrite join_cons by done.
    set (J := join [SPACE] (y :: rest)) in *.
    assert (HJ : J <> []) by by apply IH3.
    assert (Hr : rstrip ([SPACE] ++ J) = [SPACE] ++ J).
    { cbn [app]. rewrite rstrip_cons, IH2. by destruct J. }
    repeat split.
    + apply Forall_app. split; [done|]. by constructor.
    + rewrite rstrip_app_r; rewrite Hr; [done|]. by destruct J.
    + by destruct x.
Qed.

(** The line of hashtags is empty, or a clean line that starts with a
    hash sign. *)
Lemma hashtag_line_clean (idea : str) :
  keeps_ink ->
  hashtag_line idea = []
  \/ (clean (hashtag_line idea) /\ nonhash (hashtag_line idea) = false).
Proof.
  intros Hcase. unfold hashtag_line.
  set (keywords := firstn 3 _).
  assert (Hkw : Forall (Forall ink) keywords).
  { apply Forall_forall. intros w Hw. subst keywords.
    pose proof (split_ink idea) as Hsplit. rewrite Forall_forall in Hsplit.
    apply Hsplit. apply subseteq_take in Hw.
    apply list_elem_of_In, filter_In in Hw as [Hw _].
    by apply list_elem_of_In. }
  assert (Htags : Forall (fun t => t <> [] /\ Forall ink t)
                    (map (fun w => HASH :: capitalize w) keywords)).
  { apply Forall_map. eapply Forall_impl; [exact Hkw|].
    intros w Hw. cbn. split; [done|]. constructor; [done|by apply Hcase]. }
  destruct (join_words _ Htags) as (Hone & Hr & Hne).
  destruct keywords as [|w keywords]; [by left|]. right.
  cbn [map] in *.
  destruct (join_head [SPACE] HASH (capitalize w)
              (map (fun w => HASH :: capitalize w) keywords)) as [tail Htail].
  rewrite Htail in *. split; [|done].
  split; [done|]. split; [|done]. split; [|done].
  by apply lstrip_ink_head.
Qed.

Lemma closing_prompt_clean :
  clean CLOSING_PROMPT /\ nonhash CLOSING_PROMPT = true.
Proof.
  split; [|done]. split; [done|]. split; [done|].
  unfold one_line.
  assert (Hall : forallb (fun c => negb (is_linebreak c)) CLOSING_PROMPT
                 = true) by done.
  rewrite forallb_forall in Hall. apply Forall_forall. intros c Hc.
  apply negb_true_iff, Hall. by apply list_elem_of_In.
Qed.

(** [apply_post_processing] on a text that is not empty, in the
    vocabulary of the properties. *)
Lemma apply_post_processing_eq (post idea : str) :
  post <> [] ->
  apply_post_processing post idea
  = strip
      (glue
         (glue (join [LF]
                  (List.filter (fun line => nonhash (strip line))
                     (splitlines post)))
               (hashtag_line idea))
         (join [LF]
            (closing_for
               (glue (join [LF]
                        (List.filter (fun line => nonhash (strip line))
                           (splitlines post)))
                     (hashtag_line idea))))).
Proof.
  intros Hpost. unfold apply_post_processing.
  destruct post as [|c r]; [done|]. cbn [truthy negb].
  fold (hashtag_line idea).
  change (fun line : str => negb (startswith HASH (strip line)))
    with (fun line : str => nonhash (strip line)).
  set (body := join [LF] _).
  change (if truthy (hashtag_line idea)
          then body ++ [LF; LF] ++ hashtag_line idea else body)
    with (glue body (hashtag_line idea)).
  unfold closing_for.
  by destruct (contains QUESTION (glue body (hashtag_line idea))).
Qed.

Lemma filter_nonhash_clean (lines : list str) :
  Forall clean lines ->
  List.filter (fun line => nonhash (strip line)) lines
  = List.filter nonhash lines.
Proof.
  intros Hclean. apply filter_ext_in. intros line Hline.
  rewrite Forall_forall in Hclean.
  by rewrite clean_strip by by apply Hclean, list_elem_of_In.
Qed.

Lemma filter_clean (f : str -> bool) (lines : list str) :
  Forall clean lines -> Forall clean (List.filter f lines).
Proof.
  rewrite !Forall_forall. intros Hclean x Hx.
  apply list_elem_of_In, filter_In in Hx as [Hx _].
  by apply Hclean, list_elem_of_In.
Qed.

Lemma closing_for_cases (text : str) :
  (closing_for text = [] /\ contains QUESTION text = true)
  \/ (closing_for text = [CLOSING_PROMPT]
      /\ contains QUESTION text = false).
Proof. unfold closing_for. destruct (contains QUESTION text); auto. Qed.

Lemma stripped_closing (text : str) :
  stripped (join [LF] (closing_for text)).
Proof.
  destruct (closing_for_cases text) as [[-> _]|[-> _]]; [done|].
  by destruct closing_prompt_clean as [(_ & ? & _) _].
Qed.

(** [apply_post_processing] on clean lines: the lines that start with
    no hash sign, the line of hashtags, the closing line when there is
    no question mark so far. *)
Lemma apply_post_processing_lines (lines : list str) (idea : str) :
  keeps_ink -> lines <> [] -> Forall clean lines ->
  apply_post_processing (join [LF] lines) idea
  = paragraphs
      [join [LF] (List.filter nonhash lines);
       hashtag_line idea;
       join [LF]
         (closing_for
            (glue (join [LF] (List.filter nonhash lines))
                  (hashtag_line idea)))].
Proof.
  intros Hcase Hne Hclean.
  rewrite apply_post_processing_eq by by apply join_clean_nonempty.
  rewrite splitlines_join, filter_nonhash_clean by done.
  apply strip_glue3.
  - by apply join_clean_stripped, filter_clean.
  - destruct (hashtag_line_clean idea Hcase) as [->|[(_ & ? & _) _]]; done.
  - apply stripped_closing.
Qed.

Lemma contains_glue_l (c : char) (x y : str) :
  contains c x = true -> contains c (glue x y) = true.
Proof.
  intros Hc. unfold glue. destruct (truthy y); [|done].
  by rewrite contains_app, Hc.
Qed.

Lemma contains_join (c : char) (x : str) (lines : list str) :
  x ∈ lines -> contains c x = true -> contains c (join [LF] lines) = true.
Proof.
  intros Hx Hc. apply contains_elem. apply (elem_of_join _ _ x); [done|].
  by apply contains_elem.
Qed.

(** The line of hashtags as a list of lines. *)
Lemma hashtag_block (idea : str) :
  keeps_ink ->
  exists tags,
    join [LF] tags = hashtag_line idea
    /\ Forall clean tags
    /\ Forall (fun l => nonhash l = false) tags
    /\ NoDup tags.
Proof.
  intros Hcase.
  destruct (hashtag_line_clean idea Hcase) as [->|[Hclean Hhash]].
  - exists []. repeat split; constructor.
  - exists [hashtag_line idea]. repeat split.
    + by constructor.
    + by constructor.
    + apply NoDup_singleton.
Qed.

Lemma filter_nonhash_all (lines : list str) :
  Forall (fun l => nonhash l = true) lines ->
  List.filter nonhash lines = lines.
Proof.
  induction 1 as [|x rest Hx _ IH]; [done|]. cbn. by rewrite Hx, IH.
Qed.

Lemma filter_nonhash_none (lines : list str) :
  Forall (fun l => nonhash l = false) lines ->
  List.filter nonhash lines = [].
Proof.
  induction 1 as [|x rest Hx _ IH]; [done|]. cbn. by rewrite Hx, IH.
Qed.

(** The normaliser on a text it has laid out: clean lines [body] that
    start with no hash sign and are all different, the line of hashtags,
    and the closing line or none ([closing]): the closing line joins the
    body, the hashtags follow. *)
Lemma normalize_laid_out (body closing : list str) (idea : str) :
  keeps_ink ->
  Forall clean body -> NoDup body ->
  Forall (fun l => nonhash l = true) body ->
  closing = [] \/ (closing = [CLOSING_PROMPT] /\ CLOSING_PROMPT ∉ body) ->
  paragraphs [join [LF] body; hashtag_line idea; join [LF] closing] <> [] ->
  normalize
    (paragraphs [join [LF] body; hashtag_line idea; join [LF] closing]) idea
  = paragraphs
      [join [LF] (body ++ closing);
       hashtag_line idea;
       join [LF]
         (closing_for
            (glue (join [LF] (body ++ closing)) (hashtag_line idea)))].
Proof.
  intros Hcase Hclean Hnd Hnonhash Hclosing Hne.
  destruct (hashtag_block idea Hcase) as (tags & Htags & Htclean & Hthash & Htnd).
  rewrite <- Htags in *.
  assert (Hcclean : Forall clean closing).
  { destruct Hclosing as [->|[-> _]]; [constructor|].
    constructor; [apply closing_prompt_clean|constructor]. }
  assert (Hchash : Forall (fun l => nonhash l = true) closing).
  { destruct Hclosing as [->|[-> _]]; [constructor|].
    constructor; [apply closing_prompt_clean|constructor]. }
  destruct (paragraphs_lines [body; tags; closing]) as [Hlines Hshape].
  { by repeat first [apply Forall_nil_2 | apply Forall_cons_2]. }
  cbn [map concat] in Hlines, Hshape. rewrite app_nil_r in Hlines.
  assert (Hall : NoDup (body ++ tags ++ closing)).
  { apply NoDup_app. split; [done|]. split.
    - intros x Hx [Ht|Hc]%elem_of_app.
      + rewrite Forall_forall in Hnonhash, Hthash.
        specialize (Hnonhash x Hx). specialize (Hthash x Ht). congruence.
      + destruct Hclosing as [->|[-> Hfresh]];
          [by apply elem_of_nil in Hc|].
        apply list_elem_of_singleton in Hc as ->. done.
    - apply NoDup_app. split; [done|]. split.
      + intros x Ht Hc.
        rewrite Forall_forall in Hchash, Hthash.
        specialize (Hchash x Hc). specialize (Hthash x Ht). congruence.
      + destruct Hclosing as [->|[-> _]];
          [apply NoDup_nil_2|apply NoDup_singleton]. }
  unfold normalize.
  rewrite deduplicate_text_lines; rewrite ?Hlines; [|done|done].
  assert (Hlclean : Forall clean (body ++ tags ++ closing)).
  { by rewrite !Forall_app. }
  rewrite apply_post_processing_lines; [|done| |done].
  - rewrite !List.filter_app.
    rewrite (filter_nonhash_all body), (filter_nonhash_none tags),
      (filter_nonhash_all closing) by done.
    by rewrite Htags.
  - intros Hnil. apply Hne.
    apply app_eq_nil in Hnil as [-> [-> ->]%app_eq_nil]. done.
Qed.

(** C5, amended: with case tables that keep white space out of a word
    that has none, the second application of the normaliser gives a text
    that a third leaves as it is. *)
Theorem normalize_settles_after_two (raw idea : str) :
  keeps_ink ->
  normalize (normalize (normalize raw idea) idea) idea
  = normalize (normalize raw idea) idea.
Proof.
  intros Hcase.
  destruct (deduplicate_text_form raw) as (lines & Hraw & Hclean & Hnd).
  destruct lines as [|l lines].
  { unfold normalize at 3 5. rewrite Hraw. done. }
  set (body := List.filter nonhash (l :: lines)).
  set (closing := closing_for (glue (join [LF] body) (hashtag_line idea))).
  assert (Hfirst : normalize raw idea
                   = paragraphs [join [LF] body; hashtag_line idea;
                                 join [LF] closing]).
  { unfold normalize. rewrite Hraw.
    by apply apply_post_processing_lines. }
  assert (Hbclean : Forall clean body) by by apply filter_clean.
  assert (Hbnd : NoDup body).
  { apply NoDup_ListNoDup, List.NoDup_filter. by apply NoDup_ListNoDup. }
  assert (Hbhash : Forall (fun l => nonhash l = true) body).
  { apply Forall_forall. intros x Hx.
    by apply list_elem_of_In, filter_In in Hx as [_ ?]. }
  assert (Hclosing : closing = []
                     \/ (closing = [CLOSING_PROMPT]
                         /\ CLOSING_PROMPT ∉ body)).
  { subst closing.
    destruct (closing_for_cases (glue (join [LF] body) (hashtag_line idea)))
      as [[-> _]|[-> Hno]]; [by left|]. right. split; [done|].
    intros Hin.
    rewrite contains_glue_l in Hno; [done|].
    by apply (contains_join _ CLOSING_PROMPT). }
  assert (Hasks : contains QUESTION
                    (glue (join [LF] (body ++ closing)) (hashtag_line idea))
                  = true).
  { subst closing.
    destruct (closing_for_cases (glue (join [LF] body) (hashtag_line idea)))
      as [[-> Hyes]|[-> _]].
    - by rewrite app_nil_r.
    - apply contains_glue_l, (contains_join _ CLOSING_PROMPT); [|done].
      apply elem_of_app. right. by apply list_elem_of_singleton. }
  assert (Hne : paragraphs [join [LF] body; hashtag_line idea;
                            join [LF] closing] <> []).
  { intros Hnil.
    assert (Hjb : join [LF] body = []).
    { destruct (join [LF] body) eqn:E; [done|].
      rewrite paragraphs_cons in Hnil by done. unfold glue in Hnil.
      destruct (truthy _); [|done]. by destruct (_ ++ _). }
    assert (Hh : hashtag_line idea = []).
    { rewrite Hjb, paragraphs_cons_nil in Hnil.
      destruct (hashtag_line idea) eqn:E; [done|].
      rewrite paragraphs_cons in Hnil by done. unfold glue in Hnil.
      destruct (truthy _); [|done]. by destruct (_ ++ _). }
    destruct Hclosing as [Hc|[Hc _]].
    - apply join_nil_inv in Hjb;
        [|eapply Forall_impl; [exact Hbclean|by intros ? (? & _)]].
      rewrite Hc, Hjb, Hh in Hasks. done.
    - rewrite Hjb, Hh, Hc in Hnil. done. }
  assert (Hsecond : normalize (normalize raw idea) idea
                    = paragraphs [join [LF] (body ++ closing);
                                  hashtag_line idea; join [LF] []]).
  { rewrite Hfirst, normalize_laid_out by done.
    unfold closing_for. by rewrite Hasks. }
  rewrite Hsecond.
  rewrite normalize_laid_out; try done.
  - rewrite app_nil_r. unfold closing_for. by rewrite Hasks.
  - apply Forall_app. split; [done|].
    destruct Hclosing as [->|[-> _]]; [constructor|].
    constructor; [apply closing_prompt_clean|constructor].
  - apply NoDup_app. split; [done|]. split.
    + intros x Hx Hc. destruct Hclosing as [->|[-> Hfresh]];
        [by apply elem_of_nil in Hc|].
      by apply list_elem_of_singleton in Hc as ->.
    + destruct Hclosing as [->|[-> _]];
        [apply NoDup_nil_2|apply NoDup_singleton].
  - apply Forall_app. split; [done|].
    destruct Hclosing as [->|[-> _]]; [constructor|].
    constructor; [apply closing_prompt_clean|constructor].
  - by left.
  - rewrite <- Hsecond. intros Hnil.
    (* the second normal form has the question mark of the first *)
    pose proof (apply_post_processing_asks
                  (deduplicate_text (normalize raw idea)) idea) as Hq.
    unfold normalize in Hnil at 1. rewrite Hnil in Hq.
    assert (Hd : deduplicate_text (normalize raw idea) <> []).
    { apply deduplicate_text_has_ink, has_ink_elem. exists QUESTION.
      split; [|done]. apply contains_elem.
      unfold normalize. apply apply_post_processing_asks.
      rewrite Hraw. by apply join_clean_nonempty. }
    specialize (Hq Hd). done.
Qed.

End renormalise_facts.

(** ** The pipeline hands the normaliser a text that is not blank *)

Section pipeline_facts.
Context `{CaseTables} `{Remote Reply}.
Context (fetch_db_context : M World str)
        (fetch_web_context : str -> M World str).

Lemma strip_nil_or_ink (s : str) : strip s = [] \/ has_ink (strip s).
Proof.
  destruct (blank_or_ink (strip s)) as [Hblank|Hink]; [left|by right].
  rewrite <- (strip_stripped (strip s)) by apply stripped_strip.
  by apply strip_blank.
Qed.

Lemma first_candidate_text_ink (cs : list Candidate) :
  first_candidate_text cs = [] \/ has_ink (first_candidate_text cs).
Proof.
  induction cs as [|c rest IH]; [by left|]. cbn.
  destruct (candidate_content c) as [[[ps|]]|]; try done.
  destruct (omap part_text ps); [done|]. apply strip_nil_or_ink.
Qed.

Lemma safe_response_to_text_ink (response : option Reply) :
  safe_response_to_text response = []
  \/ has_ink (safe_response_to_text response).
Proof.
  destruct response as [[[cs|]]|]; try by left.
  apply first_candidate_text_ink.
Qed.

(** X8: whatever the tiers answer, the post that
    [generate_linkedin_post] returns for an idea that is not blank has a
    question mark, so it is never empty: the text it normalises is a
    reply that is not empty, or the placeholder. *)
Lemma generate_linkedin_post_asks (idea : str) (founder company : option str)
    (w w' : World) (post : str) :
  truthy (strip idea) = true ->
  generate_linkedin_post fetch_db_context fetch_web_context
    idea founder company w = (Returned post, w') ->
  contains QUESTION post = true.
Proof.
  intros Hidea. unfold generate_linkedin_post. rewrite Hidea. cbn [negb].
  unfold bind at 1. destruct (fetch_db_context w) as [[db|e] w1]; [|done].
  unfold bind at 1. destruct (fetch_web_context _ w1) as [[web|e] w2]; [|done].
  unfold bind at 1.
  destruct (_generate_with_retries PRIMARY_MODEL _ _ w2)
    as [[response|e] w3]; [|done].
  unfold bind at 1.
  set (placeholder := lit "Here's a quick thought on " ++ idea
                      ++ lit ": every journey begins with a spark of vision.").
  assert (Hplace : has_ink placeholder).
  { apply has_ink_elem. exists 72%N. split; [|done].
    apply elem_of_app. left. vm_compute. apply list_elem_of_here. }
  assert (Hfinal : forall p : str,
            p = [] \/ has_ink p ->
            contains QUESTION
              (normalize (if negb (truthy p) then placeholder else p) idea)
            = true).
  { intros p [->|Hp]; apply apply_post_processing_asks,
      deduplicate_text_has_ink; [done|].
    destruct p; [by apply has_ink_elem in Hp as (? & ?%elem_of_nil & _)|done]. }
  destruct (safe_response_to_text_ink response) as [Hnone|Hsome].
  - rewrite Hnone. cbn [truthy negb]. unfold bind at 1.
    destruct (_generate_with_retries FALLBACK_MODEL _ _ w3)
      as [[response'|e] w4]; [|done].
    unfold ret. intros [= <- _].
    apply Hfinal, safe_response_to_text_ink.
  - destruct (safe_response_to_text response) as [|c r] eqn:E;
      [by apply has_ink_elem in Hsome as (? & ?%elem_of_nil & _)|].
    cbn [truthy negb]. unfold ret. intros [= <- _].
    apply (Hfinal (c :: r)). by right.
Qed.

End pipeline_facts.

(** The ASCII case tables keep white space out of a word that has
    none. *)
Lemma ascii_upper_ink (c : char) : ink c -> ink (ascii_upper c).
Proof.
  unfold ink, ascii_upper.
  destruct ((97 <=? c)%N && (c <=? 122)%N) eqn:E; [|done].
  intros _. apply andb_true_iff in E as [Hlo Hhi].
  apply N.leb_le in Hlo, Hhi. apply not_true_iff_false.
  unfold is_space.
  rewrite !orb_true_iff, !andb_true_iff, !N.leb_le, !N.eqb_eq. lia.
Qed.

Lemma ascii_lower_ink (c : char) : ink c -> ink (ascii_lower c).
Proof.
  unfold ink, ascii_lower.
  destruct ((65 <=? c)%N && (c <=? 90)%N) eqn:E; [|done].
  intros _. apply andb_true_iff in E as [Hlo Hhi].
  apply N.leb_le in Hlo, Hhi. apply not_true_iff_false.
  unfold is_space.
  rewrite !orb_true_iff, !andb_true_iff, !N.leb_le, !N.eqb_eq. lia.
Qed.

Lemma ascii_tables_keep_ink : @keeps_ink ascii_tables.
Proof.
  intros w Hw. cbn. destruct Hw as [|c r Hc Hr]; [constructor|].
  cbn. constructor; [by apply ascii_upper_ink|].
  apply Forall_map. eapply Forall_impl; [exact Hr|]. apply ascii_lower_ink.
Qed.

(** The text "Hello" under the ASCII case tables. *)
Lemma normalize_settles_after_two_witness :
  @normalize ascii_tables
    (@normalize ascii_tables
       (@normalize ascii_tables (lit "Hello") (lit "machine learning rocks"))
       (lit "machine learning rocks"))
    (lit "machine learning rocks")
  = @normalize ascii_tables
      (@normalize ascii_tables (lit "Hello") (lit "machine learning rocks"))
      (lit "machine learning rocks").
Proof.
  apply (@normalize_settles_after_two ascii_tables).
  exact ascii_tables_keep_ink.
Defined.

(** C5, counterexample: the text "Hello" with the idea "machine learning
    rocks".  Normalised once, the closing line comes after the hashtags
    and empty lines separate the three parts; normalised again, the
    empty line after "Hello" is gone and the closing line comes before
    the hashtags. *)
Lemma normalize_is_not_idempotent :
  @normalize ascii_tables (lit "Hello") (lit "machine learning rocks")
  = lit "Hello" ++ [LF; LF] ++ lit "#Machine #Learning #Rocks"
    ++ [LF; LF] ++ lit "What do you think?"
  /\ @normalize ascii_tables
       (@normalize ascii_tables (lit "Hello") (lit "machine learning rocks"))
       (lit "machine learning rocks")
     = lit "Hello" ++ [LF] ++ lit "What do you think?"
       ++ [LF; LF] ++ lit "#Machine #Learning #Rocks"
  /\ @normalize ascii_tables
       (@normalize ascii_tables (lit "Hello") (lit "machine learning rocks"))
       (lit "machine learning rocks")
     <> @normalize ascii_tables (lit "Hello") (lit "machine learning rocks").
Proof.
  split; [vm_compute; reflexivity|].
  split; [vm_compute; reflexivity|].
  vm_compute. discriminate.
Qed.

(** The text 'Hello' has a character that is not white space. *)
Lemma normalize_asks_unless_blank_witness :
  contains QUESTION
    (@normalize ascii_tables (lit "Hello") (lit "machine learning rocks"))
  = true.
Proof.
  apply (@normalize_asks_unless_blank ascii_tables).
  apply has_ink_elem. exists 72%N. split; [|reflexivity].
  vm_compute. apply list_elem_of_here.
Defined.

(** C6, counterexample: the empty text, and a text of spaces and line
    feeds, normalise to the empty text, which has no question mark. *)
Lemma normalize_of_blank_does_not_ask :
  contains QUESTION
    (@normalize ascii_tables (lit "") (lit "machine learning rocks"))
  = false
  /\ contains QUESTION
       (@normalize ascii_tables [SPACE; LF; SPACE]
          (lit "machine learning rocks"))
     = false.
Proof. split; vm_compute; reflexivity. Qed.

(** * Further properties *)

(** ** The rate limiter: bounds, waiting time, bursts *)

Section limiter_more.
Local Open Scope Q_scope.

(** X1: whenever [acquire] returns, also after the clock has gone back,
    the token count it leaves is not negative and, for a capacity that
    is not negative, not above the capacity; [last] is the clock reading
    taken on entry, before any sleep. *)
Theorem acquire_leaves_budget_in_range (w w' : World) :
  0 <= capacity (limiter w) ->
  acquire w = (Returned tt, w') ->
  0 <= tokens (limiter w')
  /\ tokens (limiter w') <= capacity (limiter w')
  /\ last (limiter w') = clock w
  /\ rate (limiter w') = rate (limiter w)
  /\ capacity (limiter w') = capacity (limiter w).
Proof.
  intros Hcap. rewrite acquire_eval. cbv zeta.
  pose proof (refill_tokens_le_capacity (clock w) (limiter w)) as Hre.
  set (l := refill (clock w) (limiter w)) in *.
  destruct (Qltb (tokens l) 1) eqn:Hlt.
  - destruct (Qeq_bool (rate l) 0); [discriminate|].
    destruct (Qltb ((1 - tokens l) / rate l) 0); [discriminate|].
    intros [= <-]. cbn. by repeat split.
  - intros [= <-]. apply Qltb_ge in Hlt.
    change (0 <= tokens l - 1 /\ tokens l - 1 <= capacity (limiter w)
            /\ clock w = clock w /\ rate (limiter w) = rate (limiter w)
            /\ capacity (limiter w) = capacity (limiter w)).
    clearbody l. repeat split; lra.
Qed.

(** A full limiter, asked after the clock went back by two seconds. *)
Lemma acquire_leaves_budget_in_range_witness :
  0 <= tokens (limiter (snd (acquire (world_at 98 full_limiter))))
  /\ tokens (limiter (snd (acquire (world_at 98 full_limiter))))
     <= capacity (limiter (snd (acquire (world_at 98 full_limiter)))).
Proof.
  destruct (acquire_leaves_budget_in_range (world_at 98 full_limiter)
              (snd (acquire (world_at 98 full_limiter))))
    as (H0 & Hc & _).
  - vm_compute. discriminate.
  - vm_compute. reflexivity.
  - split; [exact H0|exact Hc].
Defined.

Lemma refill_tokens_nonneg (now : Q) (l : RateLimiter) :
  0 <= capacity l -> 0 <= tokens l -> 0 <= rate l -> last l <= now ->
  0 <= tokens (refill now l).
Proof.
  intros Hcap Htok Hrate Hclock. cbn. apply Q.min_glb; [exact Hcap|].
  rewrite <- (Qplus_0_r 0). apply Qplus_le_compat; [exact Htok|].
  apply Qmult_le_0_compat; [|exact Hrate].
  unfold Qminus. rewrite <- (Qplus_opp_r (last l)).
  by apply Qplus_le_l.
Qed.

(** X2: a limiter in a sound state (tokens and capacity not negative,
    positive rate), asked when the clock has not gone back, lets the
    caller through at once, one token less, when the refill gives at
    least one token; otherwise the caller sleeps, for more than nothing
    and at most [1/rate] seconds, and the bucket is left empty. *)
Theorem acquire_waits_at_most_one_period (w : World) :
  0 <= capacity (limiter w) -> 0 <= tokens (limiter w) ->
  0 < rate (limiter w) -> last (limiter w) <= clock w ->
  (1 <= tokens (refill (clock w) (limiter w))
   /\ exists w',
       acquire w = (Returned tt, w')
       /\ trace w' = trace w ++ [EAcquire]
       /\ clock w' = clock w
       /\ tokens (limiter w')
          = tokens (refill (clock w) (limiter w)) - 1)
  \/ (tokens (refill (clock w) (limiter w)) < 1
      /\ exists w' d,
          acquire w = (Returned tt, w')
          /\ trace w' = trace w ++ [EAcquire; ESleep d]
          /\ clock w' = clock w + d
          /\ 0 < d /\ d <= 1 / rate (limiter w)
          /\ tokens (limiter w') = 0).
Proof.
  intros Hcap Htok Hrate Hclock.
  pose proof (refill_tokens_nonneg (clock w) (limiter w) Hcap Htok
                (Qlt_le_weak _ _ Hrate) Hclock) as Hnn.
  rewrite acquire_eval. cbv zeta.
  set (l := refill (clock w) (limiter w)) in *.
  assert (Hr : rate l = rate (limiter w)) by reflexivity.
  destruct (Qltb (tokens l) 1) eqn:Hlt.
  - right. apply Qltb_lt in Hlt. split; [exact Hlt|].
    destruct (Qeq_bool (rate l) 0) eqn:Hz.
    { apply Qeq_bool_iff in Hz. rewrite Hr in Hz. rewrite Hz in Hrate.
      exfalso. exact (Qlt_irrefl _ Hrate). }
    assert (Hpos : 0 < (1 - tokens l) / rate l).
    { apply Qlt_shift_div_l; [by rewrite Hr|]. rewrite Qmult_0_l.
      unfold Qminus. rewrite <- (Qplus_opp_r (tokens l)).
      by apply Qplus_lt_l. }
    destruct (Qltb ((1 - tokens l) / rate l) 0) eqn:Hneg.
    { apply Qltb_lt in Hneg. exfalso.
      exact (Qlt_irrefl _ (Qlt_trans _ _ _ Hneg Hpos)). }
    eexists _, ((1 - tokens l) / rate l). split; [reflexivity|].
    cbn [trace clock limiter tokens set_tokens].
    rewrite <- app_assoc. repeat split; try done.
    rewrite <- Hr. clearbody l.
    apply Qle_shift_div_r; [by rewrite Hr|].
    assert (Hone : 1 / rate l * rate l == 1).
    { field. intros Hz'. rewrite <- Hr in Hrate. rewrite Hz' in Hrate.
      exact (Qlt_irrefl _ Hrate). }
    rewrite Hone. lra.
  - left. apply Qltb_ge in Hlt. split; [exact Hlt|].
    eexists. split; [reflexivity|]. by cbn.
Qed.

(** The module's limiter, full, asked when nothing has happened. *)
Lemma acquire_waits_at_most_one_period_witness :
  exists w',
    acquire (world_at 100 full_limiter) = (Returned tt, w')
    /\ trace w' = [EAcquire].
Proof.
  destruct (acquire_waits_at_most_one_period (world_at 100 full_limiter))
    as [(_ & w' & Hrun & Htr & _) | (Hlt & _)].
  - vm_compute. discriminate.
  - vm_compute. discriminate.
  - vm_compute. reflexivity.
  - vm_compute. discriminate.
  - exists w'. split; [exact Hrun|exact Htr].
  - exfalso. vm_compute in Hlt. discriminate Hlt.
Defined.

(** With no time gone since the last refill, the refill changes
    nothing. *)
Lemma refill_idle (now : Q) (l : RateLimiter) :
  last l == now -> tokens l <= capacity l ->
  tokens (refill now l) == tokens l.
Proof.
  intros Hlast Hcap. cbn.
  assert (Hsame : tokens l + (now - last l) * rate l == tokens l).
  { rewrite Hlast. ring. }
  rewrite Q.min_r; [exact Hsame|]. by rewrite Hsame.
Qed.

(** [k] calls on a bucket that holds [k] tokens, no time passing. *)
Lemma acquire_times_spends (k : nat) :
  forall w : World,
    tokens (limiter w) == inject_Z (Z.of_nat k) ->
    tokens (limiter w) <= capacity (limiter w) ->
    last (limiter w) == clock w ->
    exists w',
      acquire_times k w = (Returned tt, w')
      /\ trace w' = trace w ++ repeat EAcquire k
      /\ clock w' = clock w
      /\ tokens (limiter w') == 0
      /\ last (limiter w') == clock w'
      /\ rate (limiter w') = rate (limiter w)
      /\ capacity (limiter w') = capacity (limiter w).
Proof.
  induction k as [|k IH]; intros w Htok Hcap Hlast.
  - exists w. cbn. rewrite app_nil_r. by repeat split.
  - pose proof (refill_idle (clock w) (limiter w) Hlast Hcap) as Hidle.
    assert (Hone : 1 <= tokens (refill (clock w) (limiter w))).
    { rewrite Hidle, Htok. change 1 with (inject_Z 1).
      rewrite <- Zle_Qle. lia. }
    cbn [acquire_times]. unfold bind at 1. rewrite acquire_eval. cbv zeta.
    set (l := refill (clock w) (limiter w)) in *.
    rewrite (proj2 (Qltb_ge _ _) Hone).
    match goal with |- context [acquire_times k ?w1] =>
      destruct (IH w1) as (w' & Hrun & Htr & Hclk & Hzero & Hl & Hr & Hc)
    end.
    + change (tokens l - 1 == inject_Z (Z.of_nat k)).
      rewrite Hidle, Htok. rewrite Nat2Z.inj_succ. unfold Z.succ.
      rewrite inject_Z_plus. ring.
    + change (tokens l - 1 <= capacity (limiter w)).
      rewrite Hidle. lra.
    + change (clock w == clock w). reflexivity.
    + exists w'. split; [exact Hrun|]. rewrite Htr. cbn.
      rewrite <- app_assoc. by repeat split.
Qed.

(** X3: a bucket of capacity [n] that is full, with a positive rate,
    lets [n] callers through one after the other without any sleep; the
    next one, still with no time gone, sleeps for [1/rate] seconds. *)
Theorem burst_then_one_period (n : nat) (w : World) :
  0 < rate (limiter w) ->
  capacity (limiter w) == inject_Z (Z.of_nat n) ->
  tokens (limiter w) == capacity (limiter w) ->
  last (limiter w) == clock w ->
  exists w',
    acquire_times n w = (Returned tt, w')
    /\ trace w' = trace w ++ repeat EAcquire n
    /\ clock w' = clock w
    /\ exists w'' d,
         acquire w' = (Returned tt, w'')
         /\ trace w'' = trace w' ++ [EAcquire; ESleep d]
         /\ d == 1 / rate (limiter w)
         /\ clock w'' = clock w' + d.
Proof.
  intros Hrate Hcap Hfull Hlast.
  destruct (acquire_times_spends n w)
    as (w' & Hrun & Htr & Hclk & Hzero & Hl & Hr & Hc);
    [by rewrite Hfull|by rewrite Hfull; apply Qle_refl|done|].
  exists w'. split; [exact Hrun|]. split; [exact Htr|]. split; [exact Hclk|].
  assert (Hcap' : tokens (limiter w') <= capacity (limiter w')).
  { rewrite Hzero, Hc, Hcap. change 0 with (inject_Z 0).
    rewrite <- Zle_Qle. lia. }
  pose proof (refill_idle (clock w') (limiter w') Hl Hcap') as Hidle.
  rewrite acquire_eval. cbv zeta.
  set (l := refill (clock w') (limiter w')) in *.
  assert (Hrl : rate l = rate (limiter w)) by (rewrite <- Hr; reflexivity).
  assert (Hlt : tokens l < 1) by (rewrite Hidle, Hzero; reflexivity).
  rewrite (proj2 (Qltb_lt _ _) Hlt).
  destruct (Qeq_bool (rate l) 0) eqn:Hz.
  { apply Qeq_bool_iff in Hz. rewrite Hrl in Hz. rewrite Hz in Hrate.
    exfalso. exact (Qlt_irrefl _ Hrate). }
  assert (Hd : (1 - tokens l) / rate l == 1 / rate (limiter w)).
  { rewrite Hidle, Hzero, Hrl. unfold Qminus. by rewrite Qplus_0_r. }
  destruct (Qltb ((1 - tokens l) / rate l) 0) eqn:Hneg.
  { apply Qltb_lt in Hneg. rewrite Hd in Hneg. exfalso.
    apply (Qlt_not_le _ _ Hneg). apply Qle_shift_div_l; [done|]. lra. }
  eexists _, _. split; [reflexivity|]. cbn [trace clock].
  rewrite <- app_assoc. by repeat split.
Qed.

(** The module's limiter, just built. *)
Lemma burst_then_one_period_witness :
  exists w',
    acquire_times 3 (world_at 100 full_limiter) = (Returned tt, w')
    /\ trace w' = [EAcquire; EAcquire; EAcquire].
Proof.
  destruct (burst_then_one_period 3 (world_at 100 full_limiter))
    as (w' & Hrun & Htr & _).
  - vm_compute. reflexivity.
  - vm_compute. reflexivity.
  - vm_compute. reflexivity.
  - vm_compute. reflexivity.
  - exists w'. split; [exact Hrun|exact Htr].
Defined.

End limiter_more.

(** ** The retrying caller: success, time spent, what it sends *)

Section caller_more.
Context {Response : Type} `{Remote Response}.
Local Open Scope Q_scope.

(** The loop when the [k]-th attempt is answered, the ones before it
    with overloads. *)
Lemma retry_loop_succeeds (model_name prompt : str) (k : nat) :
  forall (n a : nat) (w : World) (response : Response),
    (k < n)%nat ->
    (forall i, (i < k)%nat ->
               overloaded_at (api_calls w + i) model_name prompt) ->
    (forall j, 0 <= random_random j) ->
    generate_content (api_calls w + k) model_name prompt
    = Returned response ->
    exists w',
      retry_loop model_name prompt n a w = (Returned (Some response), w')
      /\ trace w' = trace w
                    ++ backoff_events model_name prompt k a (draws w)
                    ++ [EGenerate model_name prompt (a + k)].
Proof.
  induction k as [|k IH]; intros n a w response Hk Hov Hj Hresp.
  - destruct n as [|n]; [lia|].
    rewrite Nat.add_0_r in Hresp.
    eexists. split.
    + cbn [retry_loop]. unfold bind at 1.
      unfold try, call_generate_content, bind, log. cbn.
      rewrite Hresp. reflexivity.
    + cbn. by rewrite Nat.add_0_r.
  - destruct n as [|n]; [lia|].
    rewrite retry_loop_overload_step;
      [|specialize (Hov 0%nat); rewrite Nat.add_0_r in Hov; apply Hov; lia
       |apply Hj].
    match goal with |- context [retry_loop _ _ n (S a) ?w1] =>
      destruct (IH n (S a) w1 response) as (w' & Hrun & Htr);
        [| |exact Hj| |]
    end.
    { lia. }
    { intros i Hi. cbn. specialize (Hov (S i)).
      rewrite Nat.add_succ_r in Hov. apply Hov. lia. }
    { cbn. rewrite Nat.add_succ_r in Hresp. exact Hresp. }
    exists w'. split; [exact Hrun|]. rewrite Htr. cbn.
    rewrite <- !app_assoc. cbn. by rewrite Nat.add_succ_r.
Qed.

(** X4: with a limiter of positive rate and a jitter that is not
    negative, when the endpoint answers the [k]-th attempt (counted from
    0, [k] below [max_retries]) after overloads on the ones before, the
    caller returns that answer after exactly [k + 1] attempts and [k]
    backoff sleeps; a first attempt that is answered costs no sleep. *)
Theorem answered_attempt_ends_the_retries (model_name prompt : str)
    (max_retries k : nat) (w : World) (response : Response) :
  0 < rate (limiter w) ->
  (forall j, 0 <= random_random j) ->
  (k < max_retries)%nat ->
  (forall i, (i < k)%nat ->
             overloaded_at (api_calls w + i) model_name prompt) ->
  generate_content (api_calls w + k) model_name prompt = Returned response ->
  exists w0 w1,
    acquire w = (Returned tt, w0)
    /\ _generate_with_retries model_name prompt max_retries w
       = (Returned (Some response), w1)
    /\ trace w1
       = trace w0 ++ backoff_events model_name prompt k 0 (draws w)
         ++ [EGenerate model_name prompt k]
    /\ attempts (backoff_events model_name prompt k 0 (draws w)
                 ++ [EGenerate model_name prompt k]) = S k.
Proof.
  intros Hrate Hj Hk Hov Hresp.
  destruct (acquire_returns w Hrate) as (w0 & Hacq & Hcalls & Hdraws).
  destruct (retry_loop_succeeds model_name prompt k max_retries 0%nat w0
              response) as (w1 & Hrun & Htr); [exact Hk| |exact Hj| |].
  { intros i Hi. rewrite Hcalls. by apply Hov. }
  { by rewrite Hcalls. }
  exists w0, w1. split; [exact Hacq|]. split.
  - unfold _generate_with_retries, bind. by rewrite Hacq, Hrun.
  - split; [by rewrite Htr, Hdraws|].
    rewrite attempts_app.
    destruct (attempts_backoff_events model_name prompt k 0 (draws w))
      as [-> _].
    cbn. lia.
Qed.

Lemma pow2_succ (a : nat) : pow2 (S a) == 2 * pow2 a.
Proof.
  unfold pow2. rewrite Nat2Z.inj_succ, Z.pow_succ_r by lia.
  by rewrite inject_Z_mult.
Qed.

(** The time the loop takes when every attempt ends in an overload. *)
Lemma retry_loop_overloaded_clock (model_name prompt : str) (n : nat) :
  forall (a : nat) (w : World),
    (forall i, (i < n)%nat ->
               overloaded_at (api_calls w + i) model_name prompt) ->
    (forall j, 0 <= random_random j /\ random_random j < 1) ->
    exists w',
      retry_loop model_name prompt n a w = (Returned None, w')
      /\ pow2 (a + n) - pow2 a <= clock w' - clock w
      /\ clock w' - clock w
         <= pow2 (a + n) - pow2 a + inject_Z (Z.of_nat n).
Proof.
  induction n as [|n IH]; intros a w Hov Hjit.
  - exists w. rewrite Nat.add_0_r. split; [done|].
    change (inject_Z (Z.of_nat 0)) with 0.
    generalize (pow2 a) (clock w). intros pa c. split; lra.
  - assert (Hj : forall j, 0 <= random_random j) by (intros j; apply Hjit).
    rewrite retry_loop_overload_step;
      [|specialize (Hov 0%nat); rewrite Nat.add_0_r in Hov; apply Hov; lia
       |apply Hj].
    match goal with |- context [retry_loop _ _ n (S a) ?w1] =>
      destruct (IH (S a) w1) as (w' & Hrun & Hlo & Hhi); [|exact Hjit|]
    end.
    { intros i Hi. cbn. specialize (Hov (S i)).
      rewrite Nat.add_succ_r in Hov. apply Hov. lia. }
    exists w'. split; [exact Hrun|].
    cbn [clock] in Hlo, Hhi. fold (pow2 a) in Hlo, Hhi.
    rewrite Nat.add_succ_l in Hlo, Hhi. rewrite Nat.add_succ_r.
    pose proof (pow2_succ a) as Ha.
    destruct (Hjit (draws w)) as [Hj0 Hj1].
    assert (Hn : inject_Z (Z.of_nat (S n)) == inject_Z (Z.of_nat n) + 1).
    { rewrite Nat2Z.inj_succ. unfold Z.succ. by rewrite inject_Z_plus. }
    rewrite Hn.
    generalize dependent (pow2 (S (a + n))). intros top.
    generalize dependent (pow2 (S a)). intros nexta.
    generalize dependent (pow2 a). intros pa.
    generalize dependent (random_random (draws w)). intros j.
    generalize (clock w') (clock w) (inject_Z (Z.of_nat n)).
    intros c' c m. intros. split; lra.
Qed.

(** X5: with a limiter of positive rate and a jitter in [0,1), a tier
    that answers every attempt with an overload costs the caller, after
    the limiter, at least [2^max_retries - 1] seconds of backoff and at
    most [max_retries] seconds more (15 to 19 seconds with the default
    of 4) before it gives the tier up. *)
Theorem overloaded_tier_costs_bounded_time (model_name prompt : str)
    (max_retries : nat) (w : World) :
  0 < rate (limiter w) ->
  (forall j, 0 <= random_random j /\ random_random j < 1) ->
  (forall i, (i < max_retries)%nat ->
             overloaded_at (api_calls w + i) model_name prompt) ->
  exists w0 w1,
    acquire w = (Returned tt, w0)
    /\ _generate_with_retries model_name prompt max_retries w
       = (Returned None, w1)
    /\ pow2 max_retries - 1 <= clock w1 - clock w0
    /\ clock w1 - clock w0
       <= pow2 max_retries - 1 + inject_Z (Z.of_nat max_retries).
Proof.
  intros Hrate Hjit Hov.
  destruct (acquire_returns w Hrate) as (w0 & Hacq & Hcalls & Hdraws).
  destruct (retry_loop_overloaded_clock model_name prompt max_retries
              0%nat w0) as (w1 & Hrun & Hlo & Hhi); [|exact Hjit|].
  { intros i Hi. rewrite Hcalls. by apply Hov. }
  exists w0, w1. split; [exact Hacq|]. split.
  - unfold _generate_with_retries, bind. by rewrite Hacq, Hrun.
  - cbn [Nat.add] in Hlo, Hhi. change (pow2 0) with 1 in Hlo, Hhi.
    split; [exact Hlo|exact Hhi].
Qed.

(** Whatever the endpoint answers, the loop sends the model name and
    the prompt it was given, acquires nothing and makes at most [n]
    attempts. *)
Lemma retry_loop_events (model_name prompt : str) (n : nat) :
  forall (a : nat) (w : World),
    exists evs,
      trace (snd (retry_loop model_name prompt n a w)) = trace w ++ evs
      /\ acquisitions evs = 0%nat /\ (attempts evs <= n)%nat
      /\ Forall (attempt_on model_name prompt) evs.
Proof.
  induction n as [|n IH]; intros a w.
  - exists []. cbn. rewrite app_nil_r. repeat split; [lia|constructor].
  - cbn [retry_loop]. unfold bind at 1.
    unfold try, call_generate_content, bind, log. cbn.
    destruct (generate_content (api_calls w) model_name prompt)
      as [response|e].
    + exists [EGenerate model_name prompt a]. cbn.
      repeat split; [lia|]. by repeat constructor.
    + destruct (is_overload e).
      * unfold bind, call_random, time_sleep, log, bind, raise. cbn.
        destruct (Qltb _ 0).
        -- eexists. cbn. rewrite <- app_assoc. split; [reflexivity|].
           cbn. repeat split; [lia|]. by repeat constructor.
        -- match goal with |- context [retry_loop _ _ n (S a) ?w1] =>
             destruct (IH (S a) w1) as (evs & Htr & Hacq & Hatt & Hon)
           end.
           rewrite Htr. cbn. rewrite <- !app_assoc. cbn.
           eexists. split; [reflexivity|].
           unfold acquisitions, attempts in *. cbn.
           repeat split; [exact Hacq|lia|].
           by repeat constructor.
      * exists [EGenerate model_name prompt a]. cbn.
        repeat split; [lia|]. by repeat constructor.
Qed.

(** The events of one call of the retrying caller. *)
Lemma generate_with_retries_events (model_name prompt : str)
    (max_retries : nat) (w : World) :
  exists evs,
    trace (snd (_generate_with_retries model_name prompt max_retries w))
    = trace w ++ evs
    /\ acquisitions evs = 1%nat
    /\ (attempts evs <= max_retries)%nat
    /\ Forall (attempt_on model_name prompt) evs.
Proof.
  unfold _generate_with_retries, bind.
  pose proof (acquire_eval w) as Heval. cbv zeta in Heval.
  set (l := refill (clock w) (limiter w)) in *.
  set (d := (1 - tokens l) / rate l) in *.
  destruct (Qltb (tokens l) 1).
  - destruct (Qeq_bool (rate l) 0).
    { rewrite Heval. exists [EAcquire]. cbn.
      repeat split; [lia|]. by repeat constructor. }
    destruct (Qltb d 0).
    { rewrite Heval. exists [EAcquire; ESleep d]. cbn.
      rewrite <- app_assoc. repeat split; [lia|]. by repeat constructor. }
    rewrite Heval.
    match goal with |- context [retry_loop _ _ _ _ ?w0] =>
      destruct (retry_loop_events model_name prompt max_retries 0%nat w0)
        as (evs & Htr & Hacq & Hatt & Hon)
    end.
    exists (EAcquire :: ESleep d :: evs). rewrite Htr. cbn.
    rewrite <- !app_assoc. split; [reflexivity|].
    unfold acquisitions, attempts in *. cbn.
    repeat split; [by rewrite Hacq|lia|]. by repeat constructor.
  - rewrite Heval.
    match goal with |- context [retry_loop _ _ _ _ ?w0] =>
      destruct (retry_loop_events model_name prompt max_retries 0%nat w0)
        as (evs & Htr & Hacq & Hatt & Hon)
    end.
    exists (EAcquire :: evs). rewrite Htr. cbn. rewrite <- !app_assoc.
    split; [reflexivity|].
    unfold acquisitions, attempts in *. cbn.
    repeat split; [by rewrite Hacq|lia|]. by repeat constructor.
Qed.

(** X6: whatever the endpoint answers and whatever the state of the
    limiter, every attempt of one call of the retrying caller carries
    the model name and the prompt of the call; the call acquires the
    limiter once and makes at most [max_retries] attempts. *)
Theorem retries_share_model_and_prompt (model_name prompt : str)
    (max_retries : nat) (w : World) :
  exists evs,
    trace (snd (_generate_with_retries model_name prompt max_retries w))
    = trace w ++ evs
    /\ acquisitions evs = 1%nat
    /\ (attempts evs <= max_retries)%nat
    /\ Forall (attempt_on model_name prompt) evs.
Proof. apply generate_with_retries_events. Qed.

End caller_more.

(** The default call against an endpoint that answers the third
    attempt. *)
Lemma answered_attempt_ends_the_retries_witness :
  exists w1,
    @_generate_with_retries unit answers_third PRIMARY_MODEL (lit "prompt")
      DEFAULT_MAX_RETRIES (world_at 100 full_limiter)
    = (Returned (Some tt), w1)
    /\ attempts (trace w1) = 3%nat.
Proof.
  destruct (@answered_attempt_ends_the_retries unit answers_third
              PRIMARY_MODEL (lit "prompt") DEFAULT_MAX_RETRIES 2%nat
              (world_at 100 full_limiter) tt)
    as (w0 & w1 & Hacq & Hrun & Htr & Hatt).
  - vm_compute. reflexivity.
  - intros j. vm_compute. discriminate.
  - unfold DEFAULT_MAX_RETRIES. lia.
  - intros i Hi.
    destruct i as [|[|i]]; [| |lia]; eexists; split; reflexivity.
  - reflexivity.
  - exists w1. split; [exact Hrun|].
    rewrite Htr. injection Hacq as <-. reflexivity.
Defined.

(** The default call against an endpoint that is always out of quota. *)
Lemma overloaded_tier_costs_bounded_time_witness :
  exists w0 w1,
    acquire (world_at 100 full_limiter) = (Returned tt, w0)
    /\ @_generate_with_retries unit always_exhausted PRIMARY_MODEL
         (lit "prompt") DEFAULT_MAX_RETRIES (world_at 100 full_limiter)
       = (Returned None, w1)
    /\ (15 <= clock w1 - clock w0)%Q /\ (clock w1 - clock w0 <= 19)%Q.
Proof.
  destruct (@overloaded_tier_costs_bounded_time unit always_exhausted
              PRIMARY_MODEL (lit "prompt") DEFAULT_MAX_RETRIES
              (world_at 100 full_limiter))
    as (w0 & w1 & Hacq & Hrun & Hlo & Hhi).
  - vm_compute. reflexivity.
  - intros j. split; vm_compute; congruence.
  - intros i _. eexists. split; reflexivity.
  - exists w0, w1. split; [exact Hacq|]. split; [exact Hrun|].
    split; [exact Hlo|exact Hhi].
Defined.

(** ** The generation pipeline *)

Section pipeline_more.
Context `{CaseTables} `{Remote Reply}.
Context (fetch_db_context : M World str)
        (fetch_web_context : str -> M World str).
Local Open Scope Q_scope.

(** X7: for an idea that is empty or all white space,
    [generate_linkedin_post] returns the text "Error: Empty idea
    provided." and leaves the state as it is: no database or web lookup,
    no limiter acquisition, no generation attempt. *)
Theorem blank_idea_costs_nothing (idea : str) (founder company : option str)
    (w : World) :
  blank idea ->
  generate_linkedin_post fetch_db_context fetch_web_context
    idea founder company w
  = (Returned (lit "Error: Empty idea provided."), w).
Proof.
  intros Hblank. unfold generate_linkedin_post.
  by rewrite (strip_blank idea Hblank).
Qed.

(** X9: [safe_response_to_text] returns a text without white space at
    either end that is empty or has a character that is not white
    space, never a text of white space only; it returns the empty text
    for no response and for a response without candidates. *)
Theorem safe_response_to_text_is_stripped (response : option Reply) :
  stripped (safe_response_to_text response)
  /\ (safe_response_to_text response = []
      \/ has_ink (safe_response_to_text response))
  /\ safe_response_to_text None = []
  /\ safe_response_to_text (Some {| candidates := None |}) = []
  /\ safe_response_to_text (Some {| candidates := Some [] |}) = [].
Proof.
  split; [|split; [apply safe_response_to_text_ink|done]].
  destruct response as [[[cs|]]|]; try done. cbn.
  induction cs as [|c rest IH]; [done|]. cbn.
  destruct (candidate_content c) as [[[ps|]]|]; try done.
  destruct (omap part_text ps); [done|]. apply stripped_strip.
Qed.

(** X10: for an idea that is not blank, once the two lookups have
    returned, [generate_linkedin_post] acquires the limiter once or
    twice and makes at most eight generation attempts, each on the
    primary or the fallback model with the one prompt built from the
    lookups; when the reply of the primary tier has text, the limiter is
    acquired once and no attempt goes to the fallback model. *)
Theorem tiers_bound_the_external_calls (idea : str)
    (founder company : option str) (w w1 w2 : World)
    (db_context web_context : str) :
  truthy (strip idea) = true ->
  fetch_db_context w = (Returned db_context, w1) ->
  fetch_web_context
    (if truthy (strip (or_empty founder ++ [SPACE] ++ or_empty company))
     then strip (or_empty founder ++ [SPACE] ++ or_empty company)
     else idea) w1
  = (Returned web_context, w2) ->
  exists evs,
    trace (snd (generate_linkedin_post fetch_db_context fetch_web_context
                  idea founder company w))
    = trace w2 ++ evs
    /\ (1 <= acquisitions evs <= 2)%nat
    /\ (attempts evs <= 8)%nat
    /\ Forall (fun e =>
                 attempt_on PRIMARY_MODEL
                   (build_enhanced_prompt idea db_context web_context
                      founder company) e
                 \/ attempt_on FALLBACK_MODEL
                      (build_enhanced_prompt idea db_context web_context
                         founder company) e) evs
    /\ (forall response w3,
          _generate_with_retries PRIMARY_MODEL
            (build_enhanced_prompt idea db_context web_context
               founder company) DEFAULT_MAX_RETRIES w2
          = (Returned response, w3) ->
          safe_response_to_text response <> [] ->
          acquisitions evs = 1%nat
          /\ Forall (attempt_on PRIMARY_MODEL
                       (build_enhanced_prompt idea db_context web_context
                          founder company)) evs).
Proof.
  intros Hidea Hdb Hweb. unfold generate_linkedin_post.
  rewrite Hidea. cbn [negb].
  unfold bind at 1. rewrite Hdb. unfold bind at 1. rewrite Hweb.
  set (prompt := build_enhanced_prompt idea db_context web_context
                   founder company).
  destruct (generate_with_retries_events PRIMARY_MODEL prompt
              DEFAULT_MAX_RETRIES w2) as (evs1 & Htr1 & Hacq1 & Hatt1 & Hon1).
  unfold bind at 1.
  destruct (_generate_with_retries PRIMARY_MODEL prompt DEFAULT_MAX_RETRIES
              w2) as [[response|e] w3] eqn:Hprimary; cbn [snd] in Htr1.
  2:{ exists evs1. cbn [snd]. split; [exact Htr1|].
      split; [lia|]. split; [unfold DEFAULT_MAX_RETRIES in Hatt1; lia|].
      split; [|discriminate].
      eapply Forall_impl; [exact Hon1|]. by left. }
  destruct (safe_response_to_text response) as [|c r] eqn:Htext.
  - cbn [truthy negb].
    destruct (generate_with_retries_events FALLBACK_MODEL prompt
                DEFAULT_MAX_RETRIES w3)
      as (evs2 & Htr2 & Hacq2 & Hatt2 & Hon2).
    assert (Htrace : trace
                       (snd (bind
                               (bind
                                  (_generate_with_retries FALLBACK_MODEL
                                     prompt DEFAULT_MAX_RETRIES)
                                  (fun response0 =>
                                     ret (safe_response_to_text response0)))
                               (fun post =>
                                  ret (normalize
                                         (if negb (truthy post)
                                          then lit "Here's a quick thought on "
                                               ++ idea
                                               ++ lit ": every journey begins with a spark of vision."
                                          else post) idea)) w3))
                     = trace w2 ++ evs1 ++ evs2).
    { unfold bind, ret.
      destruct (_generate_with_retries FALLBACK_MODEL prompt
                  DEFAULT_MAX_RETRIES w3) as [[response'|e] w4];
        cbn [snd] in *; by rewrite Htr2, Htr1, <- app_assoc. }
    exists (evs1 ++ evs2). split; [exact Htrace|].
    rewrite acquisitions_app, attempts_app, Hacq1, Hacq2.
    split; [lia|].
    split; [unfold DEFAULT_MAX_RETRIES in *; lia|].
    split.
    + apply Forall_app. split.
      * eapply Forall_impl; [exact Hon1|]. by left.
      * eapply Forall_impl; [exact Hon2|]. by right.
    + intros response' w3' [= <- <-] Hne. by rewrite Htext in Hne.
  - cbn [truthy negb]. unfold bind, ret. cbn [snd].
    exists evs1. split; [exact Htr1|].
    split; [lia|]. split; [unfold DEFAULT_MAX_RETRIES in Hatt1; lia|].
    split; [eapply Forall_impl; [exact Hon1|]; by left|].
    intros _ _ _ _. by split.
Qed.

End pipeline_more.

(** The idea "remote work" with nothing found and an endpoint without
    candidates: the placeholder is normalised. *)
Lemma generate_linkedin_post_asks_witness :
  contains QUESTION
    (@normalize ascii_tables (placeholder (lit "remote work"))
       (lit "remote work")) = true.
Proof.
  apply (@generate_linkedin_post_asks ascii_tables no_candidates
           nothing_found (fun _ => nothing_found)
           (lit "remote work") None None (world_at 100 full_limiter)
           (snd (@generate_linkedin_post ascii_tables no_candidates
                   nothing_found (fun _ => nothing_found)
                   (lit "remote work") None None
                   (world_at 100 full_limiter)))).
  - vm_compute. reflexivity.
  - vm_compute. reflexivity.
Defined.

(** An idea of spaces only. *)
Lemma blank_idea_costs_nothing_witness :
  @generate_linkedin_post ascii_tables no_candidates
    nothing_found (fun _ => nothing_found)
    [SPACE; SPACE] None None (world_at 100 full_limiter)
  = (Returned (lit "Error: Empty idea provided."),
     world_at 100 full_limiter).
Proof.
  apply (@blank_idea_costs_nothing ascii_tables no_candidates).
  by repeat constructor.
Defined.

(** The idea "remote work" when the primary tier says "Ship it.". *)
Lemma tiers_bound_the_external_calls_witness :
  acquisitions
    (trace (snd (@generate_linkedin_post ascii_tables says_ship_it
                   nothing_found (fun _ => nothing_found)
                   (lit "remote work") None None
                   (world_at 100 full_limiter))))
  = 1%nat.
Proof.
  destruct (@tiers_bound_the_external_calls ascii_tables says_ship_it
              nothing_found (fun _ => nothing_found)
              (lit "remote work") None None
              (world_at 100 full_limiter) (world_at 100 full_limiter)
              (world_at 100 full_limiter) (lit "None") (lit "None"))
    as (evs & Htr & _ & _ & _ & Hprimary).
  - vm_compute. reflexivity.
  - reflexivity.
  - reflexivity.
  - rewrite Htr. cbn [trace world_at app].
    destruct (Hprimary (Some ship_it)
                (snd (@_generate_with_retries Reply says_ship_it
                        PRIMARY_MODEL
                        (build_enhanced_prompt (lit "remote work")
                           (lit "None") (lit "None") None None)
                        DEFAULT_MAX_RETRIES (world_at 100 full_limiter))))
      as [Hone _].
    + vm_compute. reflexivity.
    + vm_compute. discriminate.
    + exact Hone.
Defined.

(** ** The normaliser: what it keeps and how the result is laid out *)

Section normaliser_more.
Context `{CaseTables}.

(** X11: [deduplicate_text] leaves its own result as it is. *)
Theorem deduplicate_text_idempotent (text : str) :
  deduplicate_text (deduplicate_text text) = deduplicate_text text.
Proof.
  destruct (deduplicate_text_form text) as (lines & -> & Hclean & Hnd).
  rewrite deduplicate_text_lines; rewrite splitlines_join by done.
  - by rewrite filter_truthy_clean.
  - eapply Forall_impl; [exact Hclean|]. by right.
  - by rewrite filter_truthy_clean.
Qed.

(** X12: the lines of the result of [deduplicate_text] are all
    different, none is empty, none has white space at either end, and
    they are exactly the stripped forms, when not empty, of the lines of
    the text: a line that occurs twice is kept once. *)
Theorem deduplicate_text_keeps_each_line_once (text : str) :
  NoDup (splitlines (deduplicate_text text))
  /\ Forall clean (splitlines (deduplicate_text text))
  /\ forall x,
       x ∈ splitlines (deduplicate_text text)
       <-> x <> [] /\ exists line, line ∈ splitlines text /\ x = strip line.
Proof.
  unfold deduplicate_text.
  destruct (dedup_fold_clean (splitlines text) [] ∅) as [Hclean Hnd];
    [set_solver|apply splitlines_one_line|done|apply NoDup_nil_2|].
  destruct (dedup_fold (splitlines text) [] ∅) as [_ Hkept]; [set_solver|].
  destruct (fold_left dedup_step (splitlines text) ([], ∅))
    as [lines seen]. cbn in *.
  rewrite (strip_stripped _ (join_clean_stripped lines Hclean)).
  rewrite splitlines_join by done.
  split; [done|]. split; [done|].
  intros x. rewrite Hkept. split.
  - intros [Hx|Hx]; [by apply elem_of_nil in Hx|done].
  - intros Hx. by right.
Qed.

(** The normal form of a text that is not blank. *)
Lemma normalize_form (raw idea : str) :
  keeps_ink -> has_ink raw ->
  Forall clean (splitlines (deduplicate_text raw))
  /\ normalize raw idea
     = paragraphs
         [join [LF]
            (List.filter nonhash (splitlines (deduplicate_text raw)));
          hashtag_line idea;
          join [LF]
            (closing_for
               (glue (join [LF]
                        (List.filter nonhash
                           (splitlines (deduplicate_text raw))))
                     (hashtag_line idea)))].
Proof.
  intros Hcase Hraw.
  pose proof (deduplicate_text_has_ink raw Hraw) as Hne.
  destruct (deduplicate_text_form raw) as (lines & Hform & Hclean & Hnd).
  unfold normalize. rewrite Hform in *.
  rewrite splitlines_join by done. split; [done|].
  apply apply_post_processing_lines; try done.
  intros ->. by apply Hne.
Qed.

(** X13: with case tables that keep white space out of a word that has
    none, the normal form of a text that is not blank consists of up to
    three paragraphs, an empty line between them: the deduplicated lines
    that start with no hash sign, the line of hashtags derived from the
    idea, and the closing prompt when there is no question mark before
    it.  It has no white space at either end, and a line of it that
    starts with a hash sign is the derived line of hashtags: hashtags
    written in the text are gone. *)
Theorem normalize_layout (raw idea : str) :
  keeps_ink -> has_ink raw ->
  normalize raw idea
  = paragraphs
      [join [LF]
         (List.filter nonhash (splitlines (deduplicate_text raw)));
       hashtag_line idea;
       join [LF]
         (closing_for
            (glue (join [LF]
                     (List.filter nonhash
                        (splitlines (deduplicate_text raw))))
                  (hashtag_line idea)))]
  /\ stripped (normalize raw idea)
  /\ forall l, l ∈ splitlines (normalize raw idea) ->
               nonhash l = false -> l = hashtag_line idea.
Proof.
  intros Hcase Hraw.
  destruct (normalize_form raw idea Hcase Hraw) as [Hclean Hform].
  split; [exact Hform|].
  set (body := List.filter nonhash (splitlines (deduplicate_text raw))) in *.
  set (closing := closing_for (glue (join [LF] body) (hashtag_line idea)))
    in *.
  destruct (hashtag_block idea Hcase)
    as (tags & Htags & Htclean & Hthash & Htnd).
  assert (Hbclean : Forall clean body) by by apply filter_clean.
  assert (Hcclean : Forall clean closing).
  { subst closing. unfold closing_for. destruct (contains _ _);
      [constructor|].
    constructor; [apply closing_prompt_clean|constructor]. }
  destruct (paragraphs_lines [body; tags; closing]) as [Hlines Hshape].
  { by repeat first [apply Forall_nil_2 | apply Forall_cons_2]. }
  cbn [map concat] in Hlines, Hshape. rewrite app_nil_r in Hlines.
  rewrite Htags, <- Hform in Hlines, Hshape.
  split.
  - rewrite Hform. apply stripped_paragraphs.
    repeat first [apply Forall_nil_2 | apply Forall_cons_2].
    + by apply join_clean_stripped.
    + rewrite <- Htags. by apply join_clean_stripped.
    + by apply join_clean_stripped.
  - intros l Hl Hhash.
    assert (Hne : l <> []) by (by intros ->).
    assert (Hin : l ∈ body ++ tags ++ closing).
    { rewrite <- Hlines. by apply elem_of_filter_truthy. }
    apply elem_of_app in Hin as [Hin|[Hin|Hin]%elem_of_app].
    + apply list_elem_of_In, filter_In in Hin as [_ Hin]. congruence.
    + destruct tags as [|t [|t' tags]].
      * by apply elem_of_nil in Hin.
      * apply list_elem_of_singleton in Hin as ->. by rewrite <- Htags.
      * exfalso. apply Forall_cons in Htclean as [Ht _].
        assert (Hone : one_line (hashtag_line idea)).
        { destruct (hashtag_line_clean idea Hcase) as [->|[(_ & _ & ?) _]];
            [constructor|done]. }
        rewrite <- Htags, join_cons in Hone by done.
        apply Forall_app in Hone as [_ Hone]. by inversion Hone.
    + subst closing. unfold closing_for in Hin.
      destruct (contains _ _); [by apply elem_of_nil in Hin|].
      apply list_elem_of_singleton in Hin as ->. done.
Qed.

End normaliser_more.

(** A text with a hashtag line of its own, under the ASCII case
    tables. *)
Lemma normalize_layout_witness :
  stripped (@normalize ascii_tables
              (lit "Hello" ++ [LF] ++ lit "#spam") (lit "remote work"))
  /\ @normalize ascii_tables
       (lit "Hello" ++ [LF] ++ lit "#spam") (lit "remote work")
     = lit "Hello" ++ [LF; LF] ++ lit "#Remote #Work" ++ [LF; LF]
       ++ lit "What do you think?".
Proof.
  destruct (@normalize_layout ascii_tables
              (lit "Hello" ++ [LF] ++ lit "#spam") (lit "remote work"))
    as (_ & Hstripped & _).
  - exact ascii_tables_keep_ink.
  - apply has_ink_elem. exists 72%N. split; [|reflexivity].
    vm_compute. apply list_elem_of_here.
  - split; [exact Hstripped|]. vm_compute. reflexivity.
Defined.

(** ** The cache directory: paths, clearing, reuse *)

Section cache_paths.
Context `{CaseTables}.

(** X14: with case tables for which a slash is no letter or digit and
    lowering a text brings no slash into it, the cache path of every
    profile name is "cache/", a file name without any slash, and
    ".json": no profile name leads out of the cache directory. *)
Theorem cache_path_stays_in_cache_dir (profile_name : str) :
  isalnum SLASH = false ->
  (forall s, SLASH ∈ lower s -> SLASH ∈ s) ->
  exists stem,
    get_cache_path profile_name = lit "cache/" ++ stem ++ lit ".json"
    /\ SLASH ∉ stem.
Proof.
  intros Hslash Hlower. unfold get_cache_path.
  set (safe := rstrip (List.filter _ profile_name)).
  set (stem := lower (map _ safe)).
  assert (Hstem : SLASH ∉ stem).
  { intros Hin. apply Hlower in Hin.
    apply list_elem_of_fmap in Hin as (c & Hc & Hin).
    destruct (c =? SPACE)%N eqn:Hsp; [discriminate|]. subst c.
    apply rstrip_sub in Hin.
    apply list_elem_of_In, filter_In in Hin as [_ Hkeep].
    rewrite Hslash in Hkeep. discriminate. }
  exists stem. split; [|exact Hstem].
  unfold os_path_join.
  assert (Hstart : startswith SLASH (stem ++ lit ".json") = false).
  { destruct stem as [|c r]; [done|]. cbn.
    apply N.eqb_neq. intros ->. apply Hstem. apply list_elem_of_here. }
  rewrite Hstart. done.
Qed.

(** X15: characters that are neither letters or digits, nor spaces, nor
    underscores do not count in the cache path, and a space inside a
    name counts as an underscore: profile names that differ in nothing
    else share one cache file. *)
Theorem cache_path_ignores_punctuation (a b : str) (c : char) :
  (isalnum c = false -> c <> SPACE -> c <> UNDERSCORE ->
   get_cache_path (a ++ c :: b) = get_cache_path (a ++ b))
  /\ ((exists d, d ∈ b /\ isalnum d = true /\ ink d) ->
      get_cache_path (a ++ SPACE :: b)
      = get_cache_path (a ++ UNDERSCORE :: b)).
Proof.
  split.
  - intros Halnum Hsp Hun. unfold get_cache_path.
    rewrite !List.filter_app. cbn [List.filter].
    rewrite Halnum.
    by rewrite (proj2 (N.eqb_neq _ _) Hsp), (proj2 (N.eqb_neq _ _) Hun).
  - intros (d & Hd & Halnum & Hink). unfold get_cache_path.
    rewrite !List.filter_app. cbn [List.filter].
    rewrite !N.eqb_refl, !orb_true_r. cbn [orb].
    set (keep := fun c0 : N => isalnum c0 || (c0 =? SPACE)%N
                               || (c0 =? UNDERSCORE)%N).
    assert (Htail : rstrip (List.filter keep b) <> []).
    { intros Hnil.
      assert (Hin : d ∈ rstrip (List.filter keep b)).
      { apply rstrip_keeps_ink; [done|].
        apply list_elem_of_In, filter_In. split; [by apply list_elem_of_In|].
        unfold keep. by rewrite Halnum. }
      rewrite Hnil in Hin. by apply elem_of_nil in Hin. }
    assert (Hcut : forall x : N,
              rstrip (List.filter keep a ++ x :: List.filter keep b)
              = List.filter keep a ++ x :: rstrip (List.filter keep b)).
    { intros x.
      assert (Hx : rstrip (x :: List.filter keep b)
                   = x :: rstrip (List.filter keep b)).
      { rewrite rstrip_cons. by destruct (rstrip (List.filter keep b)). }
      rewrite rstrip_app_r; by rewrite Hx. }
    rewrite !Hcut, !map_app. cbn [map]. by rewrite N.eqb_refl.
Qed.

End cache_paths.

Lemma ascii_lower_slash (s : str) :
  SLASH ∈ map ascii_lower s -> SLASH ∈ s.
Proof.
  intros (c & Hc & Hin)%list_elem_of_fmap.
  unfold ascii_lower in Hc.
  destruct ((65 <=? c)%N && (c <=? 90)%N) eqn:E; [|by subst c].
  apply andb_true_iff in E as [Hlo Hhi]. apply N.leb_le in Hlo, Hhi.
  unfold SLASH in Hc. lia.
Qed.

(** A name that tries to climb out of the directory. *)
Lemma cache_path_stays_in_cache_dir_witness :
  exists stem,
    @get_cache_path ascii_tables (lit "../../etc/passwd")
    = lit "cache/" ++ stem ++ lit ".json"
    /\ SLASH ∉ stem.
Proof.
  apply (@cache_path_stays_in_cache_dir ascii_tables).
  - reflexivity.
  - exact ascii_lower_slash.
Defined.

(** "Jane Doe!" and "Jane Doe"; "Jane Doe" and "Jane_Doe". *)
Lemma cache_path_ignores_punctuation_witness :
  @get_cache_path ascii_tables (lit "Jane Doe!")
  = @get_cache_path ascii_tables (lit "Jane Doe")
  /\ @get_cache_path ascii_tables (lit "Jane Doe")
     = @get_cache_path ascii_tables (lit "Jane_Doe").
Proof.
  split.
  - destruct (@cache_path_ignores_punctuation ascii_tables
                (lit "Jane Doe") [] 33%N) as [Hdrop _].
    refine (Hdrop _ _ _); [reflexivity|discriminate|discriminate].
  - destruct (@cache_path_ignores_punctuation ascii_tables
                (lit "Jane") (lit "Doe") 33%N) as [_ Hspace].
    refine (Hspace _). exists 68%N. split; [|split; reflexivity].
    vm_compute. apply list_elem_of_here.
Defined.

(** ** The routes: clearing, refusing, reusing *)

Section routes_more.
Context `{CaseTables}.
Context {Ext Posts Data : Type} `{Collaborators Ext Posts Data}.
Local Open Scope Q_scope.

Lemma clear_cache_lookup (profileName p : str) (w : ServerState Ext) :
  files (snd (clear_cache profileName w)) !! p
  = if bool_decide (p = get_cache_path (strip profileName)) then None
    else files w !! p.
Proof.
  unfold clear_cache.
  destruct (files w !! get_cache_path (strip profileName)) as [f|] eqn:Hf;
    cbn [is_not_None snd files]; case_bool_decide as Hp.
  - subst p. apply lookup_delete_eq.
  - by apply lookup_delete_ne.
  - by subst p.
  - done.
Qed.

(** The cache block when the cache is used. *)
Lemma resolve_hit (profile_url cache_file : str) (force_refresh : bool)
    (w : ServerState Ext) (f : File) :
  cache_usable force_refresh cache_file w = true ->
  files w !! cache_file = Some f ->
  resolve profile_url cache_file force_refresh w
  = (match json_load (content f) with
     | Returned trained_data => Returned (trained_data, true)
     | Raised e => Raised e
     end, w).
Proof.
  intros Husable Hf. unfold resolve, bind, get. rewrite Husable.
  unfold read_cache, ret. rewrite Hf. by destruct (json_load (content f)).
Qed.

(** X16: clearing the cache of a profile removes the cache file of that
    name and nothing else: every other file and everything outside the
    cache directory is as before.  The answer has status 200 when the
    file was there; when it was not, the answer is the failure
    "No cache found." with status 404 and the state is unchanged.  The
    name is not checked: a blank one designates the file of the empty
    name. *)
Theorem clear_cache_removes_that_file_only (profileName : str)
    (w : ServerState Ext) :
  files (snd (clear_cache profileName w))
    !! get_cache_path (strip profileName) = None
  /\ (forall p, p <> get_cache_path (strip profileName) ->
        files (snd (clear_cache profileName w)) !! p = files w !! p)
  /\ ext (snd (clear_cache profileName w)) = ext w
  /\ (is_Some (files w !! get_cache_path (strip profileName)) ->
      snd (fst (clear_cache profileName w)) = 200%nat)
  /\ (files w !! get_cache_path (strip profileName) = None ->
      clear_cache profileName w = (failure (lit "No cache found.") 404, w)).
Proof.
  split; [|split; [|split; [|split]]].
  - rewrite clear_cache_lookup. by rewrite bool_decide_eq_true_2.
  - intros p Hp. rewrite clear_cache_lookup.
    by rewrite bool_decide_eq_false_2.
  - unfold clear_cache. by destruct (files w !! _).
  - intros [f Hf]. unfold clear_cache. by rewrite Hf.
  - intros Hf. unfold clear_cache. by rewrite Hf.
Qed.

(** X17: once the cache of a profile is cleared, the cache status of
    that name says it is not cached and gives no age, a generation
    request for it runs the rebuild whether a refresh is forced or not,
    and clearing it again is answered with 404. *)
Theorem cleared_cache_is_rebuilt (profileName : str) (w : ServerState Ext) :
  truthy (strip profileName) = true ->
  cache_status profileName (snd (clear_cache profileName w))
  = (jsonify [(lit "success", JBool true);
              (lit "cached", JBool false);
              (lit "cache_age_hours", JNull)], 200%nat)
  /\ (forall profile_url force_refresh,
        resolve profile_url (get_cache_path (strip profileName))
          force_refresh (snd (clear_cache profileName w))
        = (trained_data <- rebuild profile_url ;;
           write_cache (get_cache_path (strip profileName)) trained_data ;;;
           ret (trained_data, false)) (snd (clear_cache profileName w)))
  /\ clear_cache profileName (snd (clear_cache profileName w))
     = (failure (lit "No cache found.") 404,
        snd (clear_cache profileName w)).
Proof.
  intros Hname.
  pose proof (clear_cache_lookup profileName
                (get_cache_path (strip profileName)) w) as Hgone.
  rewrite bool_decide_eq_true_2 in Hgone by done.
  set (w' := snd (clear_cache profileName w)) in *.
  split; [|split].
  - unfold cache_status, get_cache_age_hours. rewrite Hname. cbn [negb].
    by rewrite Hgone.
  - intros profile_url force_refresh. apply resolve_miss.
    destruct (cache_usable force_refresh _ w') eqn:Husable; [|reflexivity].
    apply cache_usable_iff in Husable as (f & Hf & _).
    rewrite Hgone in Hf. discriminate.
  - unfold clear_cache at 1. by rewrite Hgone.
Qed.

(** X18: a request is answered with status 400 exactly when one of its
    three texts is empty once stripped; the answer is then the failure
    "Missing required fields", and nothing has run: the state is
    unchanged. *)
Theorem generate_refuses_incomplete_request (req : Request)
    (w : ServerState Ext) :
  (snd (fst (generate req w)) = 400%nat <-> complete req = false)
  /\ (complete req = false ->
      generate req w = (failure (lit "Missing required fields") 400, w)).
Proof.
  assert (Hrefuse : complete req = false ->
            generate req w = (failure (lit "Missing required fields") 400, w)).
  { intros Hreq. unfold generate, generate_body.
    unfold complete in Hreq. by rewrite Hreq. }
  split; [|exact Hrefuse]. split.
  - intros Hstatus. destruct (complete req) eqn:Hreq; [|reflexivity].
    exfalso. revert Hstatus. unfold generate.
    destruct (generate_body req (time_time (ext w)) w)
      as [[response|e] w'] eqn:Hbody; [|discriminate].
    destruct (generate_body_returns _ _ _ _ _ Hreq Hbody)
      as (p & u & a & t & ->).
    discriminate.
  - intros Hreq. by rewrite Hrefuse.
Qed.


(** A complete request that finds a usable cache: the file is read and
    the post generated; nothing else runs. *)
Lemma generate_hit (req : Request) (w : ServerState Ext) (f : File) :
  complete req = true ->
  cache_usable (forceRefresh req)
    (get_cache_path (strip (profileName req))) w = true ->
  files w !! get_cache_path (strip (profileName req)) = Some f ->
  generate req w
  = match json_load (content f) with
    | Raised e => (failure (exn_str e) 500, w)
    | Returned trained_data =>
        match create_post with
        | None =>
            (failure
               (lit "module 'generate_posts' has no attribute 'create_post'")
               500, w)
        | Some create_post_fn =>
            match create_post_fn (strip (criteria req)) trained_data (ext w)
            with
            | (Raised e, e') =>
                (failure (exn_str e) 500, {| files := files w; ext := e' |})
            | (Returned post_text, e') =>
                (success_answer post_text true
                   (JNumber ((time_time e' - mtime f) / 3600))
                   (JNumber (round2 (time_time e' - time_time (ext w)))),
                 {| files := files w; ext := e' |})
            end
        end
    end.
Proof.
  intros Hreq Husable Hf. unfold generate, generate_body.
  unfold complete in Hreq. rewrite Hreq. cbn [negb].
  unfold bind at 1. rewrite (resolve_hit _ _ _ _ f Husable Hf).
  destruct (json_load (content f)) as [trained_data|e]; [|reflexivity].
  unfold bind at 1. unfold getattr.
  destruct create_post as [create_post_fn|]; [|reflexivity].
  cbn [ret]. unfold bind at 1. unfold on_ext.
  destruct (create_post_fn _ trained_data (ext w)) as [[post_text|e] e'];
    [|reflexivity].
  unfold bind, get, ret, get_cache_age_hours. cbn [files ext]. by rewrite Hf.
Qed.

(** X20: a complete request that finds a usable cache leaves the cache
    directory as it is, whatever the answer; and when the answer is a
    success, it says the cache was used and gives the age of the file
    as a number. *)
Theorem cache_hit_leaves_directory (req : Request) (w : ServerState Ext) :
  complete req = true ->
  cache_usable (forceRefresh req)
    (get_cache_path (strip (profileName req))) w = true ->
  files (snd (generate req w)) = files w
  /\ (snd (fst (generate req w)) = 200%nat ->
      exists post_text age seconds,
        fst (generate req w)
        = success_answer post_text true (JNumber age) (JNumber seconds)).
Proof.
  intros Hreq Husable.
  destruct (proj1 (cache_usable_iff _ _ _) Husable) as (f & Hf & _).
  rewrite (generate_hit req w f Hreq Husable Hf).
  destruct (json_load (content f)) as [trained_data|e];
    [|split; [reflexivity|discriminate]].
  destruct create_post as [create_post_fn|];
    [|split; [reflexivity|discriminate]].
  destruct (create_post_fn _ trained_data (ext w)) as [[post_text|e] e'];
    [|split; [reflexivity|discriminate]].
  split; [reflexivity|]. intros _. by eexists _, _, _.
Qed.

End routes_more.

(** Jane's cache is cleared. *)
Lemma cleared_cache_is_rebuilt_witness :
  @cache_status ascii_tables _ _ _ working (lit "Jane Doe")
    (snd (@clear_cache ascii_tables _ (lit "Jane Doe") (site_at 7200)))
  = (jsonify [(lit "success", JBool true);
              (lit "cached", JBool false);
              (lit "cache_age_hours", JNull)], 200%nat).
Proof.
  destruct (@cleared_cache_is_rebuilt ascii_tables _ _ _ working
              (lit "Jane Doe") (site_at 7200)) as [Hstatus _].
  - vm_compute. reflexivity.
  - exact Hstatus.
Defined.


(** Jane's request with a cache two hours old. *)
Lemma cache_hit_leaves_directory_witness :
  files (snd (@generate ascii_tables _ _ _ working jane (site_at 7200)))
  = files (site_at 7200).
Proof.
  destruct (@cache_hit_leaves_directory ascii_tables _ _ _ working jane
              (site_at 7200)) as [Hfiles _].
  - vm_compute. reflexivity.
  - vm_compute. reflexivity.
  - exact Hfiles.
Defined.

(** ** Start-up with the API key *)


(** ** [mysql_utils.py]: the insertion counters *)

Section insert_facts.
Context {DB : Type} `{Database DB}.

Lemma split_new_fold (existing_posts : gset str) (posts new_posts : list Post)
    (skipped_count : nat) :
  fold_left
    (fun '(new_posts, skipped_count) post =>
       if bool_decide (post_content post ∈ existing_posts)
       then (new_posts, S skipped_count)
       else (new_posts ++ [post], skipped_count))
    posts (new_posts, skipped_count)
  = (new_posts
     ++ List.filter
          (fun post => negb (bool_decide (post_content post ∈ existing_posts)))
          posts,
     (skipped_count
      + length (List.filter
                  (fun post => bool_decide (post_content post ∈ existing_posts))
                  posts))%nat).
Proof.
  revert new_posts skipped_count.
  induction posts as [|post rest IH]; intros new_posts skipped_count.
  - cbn. by rewrite app_nil_r, Nat.add_0_r.
  - cbn [fold_left List.filter].
    destruct (bool_decide (post_content post ∈ existing_posts));
      rewrite IH; cbn [negb length].
    + f_equal. lia.
    + by rewrite <- app_assoc.
Qed.

Lemma filter_partition_length {A} (f : A -> bool) (l : list A) :
  (length (List.filter f l) + length (List.filter (fun x => negb (f x)) l)
   = length l)%nat.
Proof.
  induction l as [|x l IH]; [done|]. cbn.
  destruct (f x); cbn; lia.
Qed.

(** The second loop adds one to one of the counters for each post. *)
Lemma insert_new_counts (new_posts : list Post)
    (inserted_count skipped_count i s : nat) (db db' : DB) :
  insert_new new_posts inserted_count skipped_count db
  = (Returned (i, s), db') ->
  (i + s = inserted_count + skipped_count + length new_posts
   /\ inserted_count <= i /\ skipped_count <= s)%nat.
Proof.
  revert inserted_count skipped_count db.
  induction new_posts as [|post rest IH];
    intros inserted_count skipped_count db.
  - cbn. unfold ret. intros [= <- <- <-]. lia.
  - cbn [insert_new length].
    destruct (execute_insert post db) as [[| |e] db1]; [| |discriminate].
    + intros Hrest%IH. lia.
    + intros Hrest%IH. lia.
Qed.

(** X22: when the insertion of a list of posts returns, the two counts
    add up to the number of posts given; the skipped count is at least
    the number of posts whose content was stored already, and the
    inserted count at most the number of the others. *)
Theorem insert_counts_add_up (posts : list Post) (db db' : DB)
    (inserted_count skipped_count : nat) :
  insert_posts_into_mysql posts db
  = (Returned (inserted_count, skipped_count), db') ->
  (inserted_count + skipped_count = length posts
   /\ already_stored db posts <= skipped_count
   /\ inserted_count <= length posts - already_stored db posts)%nat.
Proof.
  unfold insert_posts_into_mysql, split_new. rewrite split_new_fold.
  cbn [app Nat.add].
  intros (Hsum & _ & Hskipped)%insert_new_counts.
  assert (Hstored :
            length (List.filter
                      (fun post =>
                         bool_decide (post_content post
                                      ∈ (list_to_set (select_contents db)
                                         : gset str)))
                      posts)
            = already_stored db posts).
  { unfold already_stored. f_equal. apply List.filter_ext. intros post.
    apply bool_decide_ext. apply elem_of_list_to_set. }
  pose proof (filter_partition_length
                (fun post =>
                   bool_decide (post_content post
                                ∈ (list_to_set (select_contents db)
                                   : gset str)))
                posts) as Hlen.
  rewrite Hstored in *. lia.
Qed.

End insert_facts.

(** Two posts with one text and a post that is stored already. *)
Lemma insert_counts_add_up_witness :
  @insert_posts_into_mysql _ list_database
    [sample_post (lit "a"); sample_post (lit "b"); sample_post (lit "a")]
    [lit "b"]
  = (Returned (1%nat, 2%nat), [lit "b"; lit "a"])
  /\ (1 + 2
      = length [sample_post (lit "a"); sample_post (lit "b");
                sample_post (lit "a")]
      /\ @already_stored _ list_database [lit "b"]
           [sample_post (lit "a"); sample_post (lit "b");
            sample_post (lit "a")] <= 2
      /\ 1 <= length [sample_post (lit "a"); sample_post (lit "b");
                      sample_post (lit "a")]
              - @already_stored _ list_database [lit "b"]
                  [sample_post (lit "a"); sample_post (lit "b");
                   sample_post (lit "a")])%nat.
Proof.
  assert (Hrun : @insert_posts_into_mysql _ list_database
                   [sample_post (lit "a"); sample_post (lit "b");
                    sample_post (lit "a")]
                   [lit "b"]
                 = (Returned (1%nat, 2%nat), [lit "b"; lit "a"])).
  { vm_compute. reflexivity. }
  split; [exact Hrun|].
  exact (@insert_counts_add_up _ list_database _ _ _ _ _ Hrun).
Defined.

(** ** [mysql_utils.py]: the cleaned text *)

Lemma collapse_spaces_cons (c : char) (r : str) :
  collapse_spaces (c :: r)
  = if is_space c then
      match r with
      | d :: _ => if is_space d then collapse_spaces r
                  else SPACE :: collapse_spaces r
      | [] => [SPACE]
      end
    else c :: collapse_spaces r.
Proof. by destruct r. Qed.

Lemma lstrip_collapse_spaces (s : str) :
  lstrip (collapse_spaces s) = collapse_spaces (lstrip s).
Proof.
  induction s as [|c r IH]; [done|].
  rewrite collapse_spaces_cons. cbn [lstrip].
  destruct (is_space c) eqn:Hc.
  - destruct r as [|d r']; [reflexivity|].
    destruct (is_space d) eqn:Hd; [exact IH|].
    cbn [lstrip]. change (is_space SPACE) with true. exact IH.
  - rewrite collapse_spaces_cons, Hc. cbn [lstrip]. by rewrite Hc.
Qed.

Lemma lstrip_twice (s : str) : lstrip (lstrip s) = lstrip s.
Proof.
  induction s as [|c r IH]; [done|]. cbn [lstrip].
  destruct (is_space c) eqn:Hc; [exact IH|]. cbn [lstrip]. by rewrite Hc.
Qed.

Lemma split_lstrip (s : str) : split (lstrip s) = split s.
Proof.
  induction s as [|c r IH]; [done|].
  rewrite (split_cons c r). cbn [lstrip].
  destruct (is_space c) eqn:Hc; [exact IH|].
  by rewrite split_cons, Hc.
Qed.

Lemma split_nonempty (s : str) : Forall (fun t => t <> []) (split s).
Proof.
  induction s as [|c r IH]; [constructor|].
  rewrite split_cons. destruct (is_space c); [done|].
  destruct r as [|d r']; [by repeat constructor|].
  destruct (is_space d); [by repeat constructor|].
  destruct (split (d :: r')) as [|w ws]; [by repeat constructor|].
  apply Forall_cons in IH as [_ Hws]. by constructor.
Qed.

Lemma split_ink_head (d : char) (r : str) :
  is_space d = false -> exists w ws, split (d :: r) = (d :: w) :: ws.
Proof.
  intros Hd. rewrite split_cons, Hd.
  destruct r as [|d' r']; [by eexists _, _|].
  destruct (is_space d'); [by eexists _, _|].
  destruct (split (d' :: r')); by eexists _, _.
Qed.

(** What is left of a text whose runs of white space are collapsed,
    once the white space at its end is removed. *)
Lemma rstrip_collapse_spaces (s : str) :
  rstrip (collapse_spaces s)
  = match s with
    | [] => []
    | c :: _ =>
        if is_space c then
          match split s with
          | [] => []
          | ws => SPACE :: join [SPACE] ws
          end
        else join [SPACE] (split s)
    end.
Proof.
  induction s as [|c r IH]; [done|].
  rewrite collapse_spaces_cons, split_cons.
  destruct (is_space c) eqn:Hc.
  - destruct r as [|d r']; [reflexivity|].
    destruct (is_space d) eqn:Hd; [exact IH|].
    rewrite rstrip_cons, IH.
    destruct (split_ink_head d r' Hd) as (w & ws & ->).
    by destruct (join_head [SPACE] d w ws) as [tail ->].
  - rewrite rstrip_cons_ink by done.
    destruct r as [|d r']; [reflexivity|].
    rewrite IH. destruct (is_space d) eqn:Hd.
    + by destruct (split (d :: r')) as [|w ws].
    + destruct (split (d :: r')) as [|w ws]; [reflexivity|].
      by destruct ws.
Qed.

(** [re.sub(r"\s+", " ", s).strip()] is the words of [s] joined by
    single spaces. *)
Lemma strip_collapse_spaces (s : str) :
  strip (collapse_spaces s) = join [SPACE] (split s).
Proof.
  unfold strip. rewrite lstrip_collapse_spaces, rstrip_collapse_spaces.
  rewrite <- (split_lstrip s).
  destruct (lstrip s) as [|c r] eqn:Hs; [done|].
  assert (Hfix : lstrip (c :: r) = c :: r).
  { rewrite <- Hs. apply lstrip_twice. }
  apply lstrip_fixed in Hfix as [?|(c' & r' & [= <- <-] & Hc)]; [done|].
  unfold ink in Hc. by rewrite Hc.
Qed.

Section clean_facts.
Context `{CaseTables} `{Regex}.

(** The loop over the lines of [clean_post], from any list of lines
    kept so far: the lines kept are lines given, in their order; no two
    in a row are equal; none has the profile name or "influencer" in
    it. *)
Lemma keep_line_loop (profile_name : str)
    (lines seen filtered_lines : list str) :
  filtered_lines `sublist_of` seen ->
  (forall l1 a b l2, filtered_lines = l1 ++ a :: b :: l2 -> a <> b) ->
  Forall (fun line =>
            is_infix (lit "influencer") (lower line) = false
            /\ (profile_name <> [] ->
                is_infix (lower profile_name) (lower line) = false))
    filtered_lines ->
  fold_left (keep_line profile_name) lines filtered_lines
    `sublist_of` seen ++ lines
  /\ (forall l1 a b l2,
        fold_left (keep_line profile_name) lines filtered_lines
        = l1 ++ a :: b :: l2 -> a <> b)
  /\ Forall (fun line =>
               is_infix (lit "influencer") (lower line) = false
               /\ (profile_name <> [] ->
                   is_infix (lower profile_name) (lower line) = false))
       (fold_left (keep_line profile_name) lines filtered_lines).
Proof.
  revert seen filtered_lines.
  induction lines as [|line rest IH]; intros seen kept Hsub Hadj Hgood.
  - cbn. by rewrite app_nil_r.
  - cbn [fold_left].
    replace (seen ++ line :: rest) with ((seen ++ [line]) ++ rest)
      by by rewrite <- app_assoc.
    assert (Hskip : kept `sublist_of` seen ++ [line]).
    { by apply sublist_inserts_r. }
    unfold keep_line.
    destruct (truthy_list kept && bool_decide (line = List.last kept []))
      eqn:Hsame; [by apply IH|].
    destruct (truthy profile_name
              && is_infix (lower profile_name) (lower line)) eqn:Hname;
      [by apply IH|].
    destruct (is_infix (lit "influencer") (lower line)) eqn:Hinf;
      [by apply IH|].
    apply IH.
    + by apply sublist_app.
    + intros l1 a b l2 Heq.
      destruct l2 as [|x l2' _] using rev_ind.
      * change (l1 ++ [a; b]) with (l1 ++ [a] ++ [b]) in Heq.
        rewrite app_assoc in Heq.
        apply app_inj_tail in Heq as [-> <-].
        rewrite List.last_last in Hsame.
        destruct l1; cbn in Hsame; case_bool_decide; congruence.
      * change (l1 ++ a :: b :: l2' ++ [x])
          with (l1 ++ (a :: b :: l2') ++ [x]) in Heq.
        rewrite app_assoc in Heq.
        apply app_inj_tail in Heq as [-> _].
        by apply (Hadj l1 a b l2').
    + apply Forall_app. split; [exact Hgood|].
      constructor; [|constructor]. split; [exact Hinf|].
      intros Hne. destruct profile_name; [done|]. exact Hname.
Qed.

(** X23: the cleaned text of a post is a list of words joined by single
    spaces, each word without white space in it: it has no white space
    at either end, no line boundary, and no white space but single
    spaces.  The cleaned text of the empty text is empty. *)
Theorem clean_post_is_words (text profile_name : str) :
  (exists words,
     clean_post text profile_name = join [SPACE] words
     /\ Forall (fun t => t <> [] /\ Forall ink t) words)
  /\ stripped (clean_post text profile_name)
  /\ one_line (clean_post text profile_name)
  /\ clean_post [] profile_name = [].
Proof.
  assert (Hwords : exists words,
            clean_post text profile_name = join [SPACE] words
            /\ Forall (fun t => t <> [] /\ Forall ink t) words).
  { unfold clean_post. destruct (truthy text).
    - cbn [negb]. rewrite strip_collapse_spaces. eexists. split; [done|].
      apply Forall_and. split; [apply split_nonempty|apply split_ink].
    - exists []. by split. }
  split; [exact Hwords|].
  destruct Hwords as (words & -> & Hwords).
  destruct (join_words words Hwords) as (Hone & Hr & _).
  split; [|split; [exact Hone|reflexivity]].
  split; [|exact Hr].
  destruct Hwords as [|w ws [Hne Hw] _]; [done|].
  destruct w as [|c r]; [done|].
  destruct (join_head [SPACE] c r ws) as [tail ->].
  apply lstrip_ink_head. by apply Forall_cons in Hw as [Hc _].
Qed.

(** X24: the cleaned text of a text that is not empty is made of the
    words of the lines kept by the loop.  The lines kept are stripped
    lines of the text without its junk, in their order; no two in a row
    are equal; none has "influencer" in it once lowered, nor, when a
    profile name is given, the lowered profile name. *)
Theorem clean_post_kept_lines (text profile_name : str) :
  text <> [] ->
  exists filtered_lines,
    clean_post text profile_name
    = join [SPACE] (split (join [SPACE] filtered_lines))
    /\ filtered_lines
         `sublist_of`
         map strip
           (List.filter (fun l => truthy (strip l))
              (splitlines
                 (fold_left
                    (fun text pattern => re_remove_ignorecase pattern text)
                    junk_patterns text)))
    /\ (forall l1 a b l2, filtered_lines = l1 ++ a :: b :: l2 -> a <> b)
    /\ Forall (fun line =>
                 is_infix (lit "influencer") (lower line) = false
                 /\ (profile_name <> [] ->
                     is_infix (lower profile_name) (lower line) = false))
         filtered_lines.
Proof.
  intros Htext. unfold clean_post.
  destruct text as [|c r]; [done|]. cbn [truthy negb].
  eexists. split; [apply strip_collapse_spaces|].
  apply (keep_line_loop profile_name _ [] []).
  - done.
  - intros l1 a b l2 Heq. by destruct l1.
  - constructor.
Qed.

End clean_facts.

(** A scraped text with the author's name, a line twice and a line of
    the interface. *)
Lemma clean_post_kept_lines_witness :
  exists filtered_lines,
    @clean_post ascii_tables no_junk
      (lit "Jane Doe" ++ [LF] ++ lit "Hello  there" ++ [LF]
       ++ lit "Hello  there" ++ [LF] ++ lit "Top Influencer" ++ [LF]
       ++ lit "Bye")
      (lit "Jane Doe")
    = join [SPACE] (split (join [SPACE] filtered_lines))
    /\ @clean_post ascii_tables no_junk
         (lit "Jane Doe" ++ [LF] ++ lit "Hello  there" ++ [LF]
          ++ lit "Hello  there" ++ [LF] ++ lit "Top Influencer" ++ [LF]
          ++ lit "Bye")
         (lit "Jane Doe")
       = lit "Hello there Bye".
Proof.
  destruct (@clean_post_kept_lines ascii_tables no_junk
              (lit "Jane Doe" ++ [LF] ++ lit "Hello  there" ++ [LF]
               ++ lit "Hello  there" ++ [LF] ++ lit "Top Influencer" ++ [LF]
               ++ lit "Bye")
              (lit "Jane Doe")) as (filtered_lines & Heq & _).
  - discriminate.
  - exists filtered_lines. split; [exact Heq|]. vm_compute. reflexivity.
Defined.
